(** * uart_to_ftdi_i2c: the UART to I2C bridge loop and its FTDI veneer

    A shallow embedding of

    - [pylibmpsse_i2c/ctypes_veneer.py]  (modules [Veneer], [StatusText]
      and [Channels]),
    - [pylibmpsse_i2c/__init__.py]       (modules [FtdiI2C] and [Channels]),
    - [uart_to_ftdi_i2c.py], the command loop of [main] (module [Bridge]),

    followed by the properties of the bridge protocol.

    Python code runs here in a state-and-exception monad.  The state holds
    what the outside world will answer (the outcomes of the successive
    [uart.read] calls and the replies of the successive libmpsse calls),
    the trace of the calls the program has made, and the one local variable
    of [main] that can be read before it is assigned.

    The [serial] package (pyserial) is not part of the repository.  Its
    [read] never raises on a time-out: it returns the bytes received so
    far, fewer than it was asked for and possibly none.  Its
    [serial.Timeout] is a helper class and no exception class, so Python
    refuses the clause [except serial.Timeout] of [main] with [TypeError]
    whenever an exception reaches it.  The handlers of [main] were written
    for a read that raises [serial.Timeout]; the outcome [RxTimeout] of a
    read stands for that, and no run on pyserial contains it. *)

From Stdlib Require Import ZArith List Bool Lia.
From Stdlib Require String Ascii.
Import ListNotations.
Local Open Scope Z_scope.

(** ** Python values, exceptions and effects *)

Module Py.

(** [FT_Status], the [IntEnum] of ctypes_veneer.py, members 0 to 18. *)
Inductive FT_Status : Set :=
| FT_OK
| FT_INVALID_HANDLE
| FT_DEVICE_NOT_FOUND
| FT_DEVICE_NOT_OPENED
| FT_IO_ERROR
| FT_INSUFFICIENT_RESOURCES
| FT_INVALID_PARAMETER
| FT_INVALID_BAUD_RATE
| FT_DEVICE_NOT_OPENED_FOR_ERASE
| FT_DEVICE_NOT_OPENED_FOR_WRITE
| FT_FAILED_TO_WRITE_DEVICE
| FT_EEPROM_READ_FAILED
| FT_EEPROM_WRITE_FAILED
| FT_EEPROM_ERASE_FAILED
| FT_EEPROM_NOT_PRESENT
| FT_EEPROM_NOT_PROGRAMMED
| FT_INVALID_ARGS
| FT_NOT_SUPPORTED
| FT_OTHER_ERROR.

Definition FT_Status_members : list FT_Status :=
  [ FT_OK; FT_INVALID_HANDLE; FT_DEVICE_NOT_FOUND; FT_DEVICE_NOT_OPENED;
    FT_IO_ERROR; FT_INSUFFICIENT_RESOURCES; FT_INVALID_PARAMETER;
    FT_INVALID_BAUD_RATE; FT_DEVICE_NOT_OPENED_FOR_ERASE;
    FT_DEVICE_NOT_OPENED_FOR_WRITE; FT_FAILED_TO_WRITE_DEVICE;
    FT_EEPROM_READ_FAILED; FT_EEPROM_WRITE_FAILED; FT_EEPROM_ERASE_FAILED;
    FT_EEPROM_NOT_PRESENT; FT_EEPROM_NOT_PROGRAMMED; FT_INVALID_ARGS;
    FT_NOT_SUPPORTED; FT_OTHER_ERROR ].

(** [FT_Status(status)]: the member with that value, if there is one. *)
Definition FT_Status_of_int (status : Z) : option FT_Status :=
  if status <? 0 then None else nth_error FT_Status_members (Z.to_nat status).

Definition is_FT_OK (st : FT_Status) : bool :=
  match st with FT_OK => true | _ => false end.

(** The exceptions that the modelled code raises or lets through.
    [FtdiError] carries the status whose [str] is its message;
    [SerialTimeout] is the [serial.Timeout] named by the handlers of
    [main], raised only by the read they were written for. *)
Inductive exn : Set :=
| KeyboardInterrupt
| SerialTimeout
| FtdiError (status_enum : FT_Status)
| AssertionError
| ValueError
| TypeError
| UnboundLocalError
| OverflowError
| MemoryError.

Definition is_SerialTimeout (e : exn) : bool :=
  match e with SerialTimeout => true | _ => false end.

Definition is_KeyboardInterrupt (e : exn) : bool :=
  match e with KeyboardInterrupt => true | _ => false end.

(** [uart.timeout]: [None] (wait forever) or [0.7]. *)
Inductive timeout : Set :=
| Forever
| Seconds_0_7.

(** What one call of [uart.read] does: it returns bytes (on pyserial a
    time-out returns the bytes received so far, fewer than asked for), or
    the operator hits Ctrl-C during the wait.  [RxTimeout] is the time-out
    of a serial port that raises [serial.Timeout], the one the handlers of
    [main] were written for; pyserial never does that. *)
Inductive rx : Set :=
| Rx (received : list Z)
| RxTimeout
| RxInterrupt.

(** What one libmpsse call answers: its status, the value stored through
    the [sizeTransferred] pointer, and the bytes it stored into the buffer
    it was handed (none for a write or a close). *)
Record dll_reply : Set := mk_reply {
  status : Z;
  size_transferred : Z;
  stored : list Z
}.

(** The calls the program makes on the serial port, on libmpsse and on the
    logger, in the order it makes them, with the arguments as the Python
    code passes them. *)
Inductive event : Set :=
| uart_read_call (t : timeout) (size : Z)
| uart_write_call (data : list Z)
| uart_close
| I2C_DeviceRead (handle device_address size options : Z)
| I2C_DeviceWrite (handle device_address size : Z) (buffer : list Z) (options : Z)
| I2C_CloseChannel (handle : Z)
| logger_debug (control_character : Z).

Record state : Set := mk_state {
  uart_in : list rx;            (* outcomes of the reads still to come *)
  uart_timeout : timeout;       (* uart.timeout *)
  dll : list dll_reply;         (* replies of the libmpsse calls still to come *)
  trace : list event;           (* calls made so far, oldest first *)
  next_char : option Z          (* the local next_char of main, once assigned *)
}.

(** How a computation ends: with a value, with an exception, waiting for
    an answer that the world never gives, or cut off by the loop budget. *)
Inductive res (A : Type) : Type :=
| Ret (a : A)
| Raise (e : exn)
| Blocked
| OutOfFuel.
Arguments Ret {A} a.
Arguments Raise {A} e.
Arguments Blocked {A}.
Arguments OutOfFuel {A}.

Definition M (A : Type) : Type := state -> res A * state.

Definition ret {A} (a : A) : M A := fun s => (Ret a, s).

Definition raise {A} (e : exn) : M A := fun s => (Raise e, s).

Definition bind {A B} (m : M A) (k : A -> M B) : M B :=
  fun s =>
    match m s with
    | (Ret a, s') => k a s'
    | (Raise e, s') => (Raise e, s')
    | (Blocked, s') => (Blocked, s')
    | (OutOfFuel, s') => (OutOfFuel, s')
    end.

(** [try: body / except E: handler], followed by [rest] when the body
    raised nothing.  The handlers of [main] all leave by [continue] or
    [break], so what follows the statement runs only after a body that
    completed. *)
Definition try_except {A B} (body : M A) (E : exn -> bool) (handler : M B)
    (rest : A -> M B) : M B :=
  fun s =>
    match body s with
    | (Ret a, s') => rest a s'
    | (Raise e, s') => if E e then handler s' else (Raise e, s')
    | (Blocked, s') => (Blocked, s')
    | (OutOfFuel, s') => (OutOfFuel, s')
    end.

(** [try: body / except serial.Timeout: handler], followed by [rest].
    With pyserial, [serial.Timeout] does not inherit from [BaseException]:
    when an exception reaches the clause, Python raises [TypeError]
    (catching classes that do not inherit from BaseException is not
    allowed) in its place, whatever the exception is.  The handler runs
    only for the [serial.Timeout] of a serial port that raises it. *)
Definition try_except_serial_Timeout {A B} (body : M A) (handler : M B)
    (rest : A -> M B) : M B :=
  fun s =>
    match body s with
    | (Ret a, s') => rest a s'
    | (Raise e, s') =>
        if is_SerialTimeout e then handler s' else (Raise TypeError, s')
    | (Blocked, s') => (Blocked, s')
    | (OutOfFuel, s') => (OutOfFuel, s')
    end.

(** [with cm: body] for a context manager whose [__exit__] returns [None]:
    the exit runs when the body returns or raises, and the exception of the
    body, if any, is raised again unless the exit raises its own. *)
Definition with_exit {A} (exit : M unit) (body : M A) : M A :=
  fun s =>
    match body s with
    | (Ret a, s') => bind exit (fun _ => ret a) s'
    | (Raise e, s') => bind exit (fun _ => raise e) s'
    | (Blocked, s') => (Blocked, s')
    | (OutOfFuel, s') => (OutOfFuel, s')
    end.

Definition emit (ev : event) : M unit :=
  fun s => (Ret tt, mk_state (uart_in s) (uart_timeout s) (dll s)
                             (trace s ++ [ev]) (next_char s)).

(** [uart.timeout = t] *)
Definition set_timeout (t : timeout) : M unit :=
  fun s => (Ret tt, mk_state (uart_in s) t (dll s) (trace s) (next_char s)).

(** [uart.read(size)].  With [uart.timeout = None] a silent line never
    ends the wait.  Under [0.7] pyserial returns what it has received,
    which is an [Rx] with fewer than [size] bytes. *)
Definition uart_read (size : Z) : M (list Z) :=
  fun s =>
    let s1 := mk_state (uart_in s) (uart_timeout s) (dll s)
                (trace s ++ [uart_read_call (uart_timeout s) size]) (next_char s) in
    let rest tl := mk_state tl (uart_timeout s1) (dll s1) (trace s1) (next_char s1) in
    match uart_in s with
    | [] => (Blocked, s1)
    | Rx received :: tl => (Ret received, rest tl)
    | RxTimeout :: tl =>
        match uart_timeout s with
        | Forever => (Blocked, s1)
        | Seconds_0_7 => (Raise SerialTimeout, rest tl)
        end
    | RxInterrupt :: tl => (Raise KeyboardInterrupt, rest tl)
    end.

(** [uart.write(data)]; pyserial takes bytes and rejects [None]. *)
Definition uart_write (data : option (list Z)) : M unit :=
  match data with
  | Some b => emit (uart_write_call b)
  | None => raise TypeError
  end.

(** One call into libmpsse: the call is made, then its reply is awaited. *)
Definition dll_call (call : event) : M dll_reply :=
  bind (emit call) (fun _ s =>
    match dll s with
    | [] => (Blocked, s)
    | reply :: tl =>
        (Ret reply, mk_state (uart_in s) (uart_timeout s) tl (trace s) (next_char s))
    end).

(** [assert cond] *)
Definition assert (cond : bool) : M unit :=
  if cond then ret tt else raise AssertionError.

(** [a, b = bs] *)
Definition unpack2 (bs : list Z) : M (Z * Z) :=
  match bs with
  | [a; b] => ret (a, b)
  | _ => raise ValueError
  end.

(** [*init, last = bs] *)
Definition unpack_star_last (bs : list Z) : M (list Z * Z) :=
  match bs with
  | [] => raise ValueError
  | _ :: _ => ret (removelast bs, last bs 0)
  end.

(** [bs == other] on bytes objects *)
Definition bytes_eqb (bs other : list Z) : bool :=
  if list_eq_dec Z.eq_dec bs other then true else false.

(** [len(bs)] *)
Definition len (bs : list Z) : Z := Z.of_nat (length bs).

(** [ord('S')] *)
Definition ord_S : Z := 83.

End Py.

Import Py.

Declare Scope py_scope.
Delimit Scope py_scope with py.
Notation "x <- m ;; k" := (bind m (fun x => k))
  (at level 61, m at next level, right associativity) : py_scope.
Notation "m ;; k" := (bind m (fun _ => k))
  (at level 61, right associativity) : py_scope.
Notation "' pat <- m ;; k" := (bind m (fun x => match x with pat => k end))
  (at level 61, pat pattern, m at next level, right associativity) : py_scope.
Local Open Scope py_scope.

(** ** pylibmpsse_i2c/ctypes_veneer.py *)

Module Veneer.

(** [_check_ftdi_status]: [FT_Status(status)] raises [ValueError] on a value
    that is no member; any member but [FT_OK] raises [FtdiError]. *)
Definition _check_ftdi_status (status : Z) : M unit :=
  match FT_Status_of_int status with
  | None => raise ValueError
  | Some status_enum =>
      if is_FT_OK status_enum then ret tt else raise (FtdiError status_enum)
  end.

(** [wrapped_function] of [_wrap_dll_func]: call, check, return the status. *)
Definition wrapped_function (call : event) : M dll_reply :=
  reply <- dll_call call ;;
  _check_ftdi_status (status reply) ;;
  ret reply.

(** [ctypes.c_uint32(v).value] *)
Definition c_uint32 (v : Z) : Z := v mod 2 ^ 32.

(** [start + 2 * stop + (direction << 4)], with booleans counted as 0 and 1 *)
Definition transfer_options (start stop : bool) (direction : Z) : Z :=
  Z.b2z start + 2 * Z.b2z stop + Z.shiftl direction 4.

(** [sys.maxsize] of a 64-bit CPython. *)
Definition PY_SSIZE_T_MAX : Z := 2 ^ 63 - 1.

(** The size of the header and of the final NUL of a bytes object, which
    CPython adds to the count before it allocates. *)
Definition PyBytesObject_SIZE : Z := 33.

(** [bytes(n)]: [n] zero bytes.  A count that does not fit [Py_ssize_t],
    or is too large for a bytes object, is an [OverflowError]; a negative
    count is a [ValueError]; a count beyond [memory], the largest size the
    allocator grants at that moment, is a [MemoryError]. *)
Definition bytes_of_count (memory n : Z) : M (list Z) :=
  if n <? - PY_SSIZE_T_MAX - 1 then raise OverflowError
  else if n <? 0 then raise ValueError
  else if PY_SSIZE_T_MAX - PyBytesObject_SIZE <? n then raise OverflowError
  else if memory <? n then raise MemoryError
  else ret (repeat 0 (Z.to_nat n)).

(** The memory a [c_char_p] set to a bytes object points at: the bytes and
    the NUL that ends them. *)
Definition c_char_p_memory (value : list Z) : list Z := value ++ [0].

(** libmpsse stores what it received at the start of the buffer. *)
Definition store_at_start (received memory : list Z) : list Z :=
  received ++ skipn (length received) memory.

(** [c_char_p.value]: the bytes before the first NUL. *)
Fixpoint c_char_p_value (memory : list Z) : list Z :=
  match memory with
  | [] => []
  | b :: tl => if b =? 0 then [] else b :: c_char_p_value tl
  end.

Definition close_channel (handle : Z) : M unit :=
  wrapped_function (I2C_CloseChannel handle) ;;
  ret tt.

(** [memory] is what the allocator grants when [bytes(bytes_to_read)]
    runs. *)
Definition read_device (memory handle device_address bytes_to_read : Z)
    (start stop : bool) : M (list Z) :=
  zeros <- bytes_of_count memory bytes_to_read ;;
  let buffer := c_char_p_memory zeros in
  let options := c_uint32 (transfer_options start stop 0) in
  reply <- wrapped_function
             (I2C_DeviceRead handle device_address bytes_to_read options) ;;
  let buffer := store_at_start (stored reply) buffer in
  let actually_written := size_transferred reply in
  assert (actually_written =? bytes_to_read) ;;
  ret (c_char_p_value buffer).

Definition write_device (handle device_address : Z) (bytes_to_write : list Z)
    (start stop : bool) : M unit :=
  reply <- wrapped_function
             (I2C_DeviceWrite handle device_address (len bytes_to_write)
                bytes_to_write (transfer_options start stop 1)) ;;
  assert (size_transferred reply =? len bytes_to_write).

End Veneer.

(** ** pylibmpsse_i2c/__init__.py: class [FtdiI2C]

    [self.hi2c] is the handle of the open channel. *)

Module FtdiI2C.

(** [__exit__(exc_type, exc_val, exc_tb)] *)
Definition __exit__ (hi2c : Z) : M unit :=
  Veneer.close_channel hi2c.

(** [write(address, data, start=True, stop=True)] *)
Definition write (hi2c address : Z) (data : list Z) (start stop : bool) : M unit :=
  Veneer.write_device hi2c address data start stop.

(** [read(address, length, start, stop)]: the body is a bare [return], so
    the method makes no call and gives [None]. *)
Definition read (hi2c address length : Z) (stop : bool) : M (option (list Z)) :=
  ret None.

End FtdiI2C.

(** ** uart_to_ftdi_i2c.py: the command loop of [main]

    The model starts where both context managers of [main] have been
    entered: [hi2c] is the open I2C channel and the serial port is open. *)

Module Bridge.

(** How one pass through the body of a [while True] ends. *)
Inductive ctl : Set :=
| Continue     (* by [continue], or by reaching the end of the body *)
| Break.       (* by [break] *)

(** Lines 91-92: [write = addr % 1 == 0] and [addr = addr // 2]. *)
Definition decode_address (addr : Z) : bool * Z :=
  (addr mod 1 =? 0, addr / 2).

(** The body of the first [try] of the inner loop, lines 90-92. *)
Definition address_phase : M (bool * Z * Z) :=
  bs <- uart_read 2 ;;
  '(addr, length) <- unpack2 bs ;;
  let '(write, addr) := decode_address addr in
  ret (write, addr, length).

(** Lines 101-102: the payload and the character that follows it. *)
Definition write_phase (length : Z) : M (list Z * Z) :=
  set_timeout Seconds_0_7 ;;
  bs <- uart_read (length + 1) ;;
  '(data, c) <- unpack_star_last bs ;;
  (fun s => (Ret (data, c),
             mk_state (uart_in s) (uart_timeout s) (dll s) (trace s) (Some c))).

(** Lines 113-114: the character that follows a read command. *)
Definition read_phase : M bool :=
  set_timeout Seconds_0_7 ;;
  c <- uart_read 1 ;;
  ret (bytes_eqb c [ord_S]).

(** One pass through the body of the inner [while True], lines 87-123.
    The calls of [hi2c.write], [hi2c.read] and [uart.write] come after
    their [try] statement, out of reach of its clause. *)
Definition frame_body (hi2c : Z) : M ctl :=
  set_timeout Seconds_0_7 ;;
  try_except_serial_Timeout address_phase
    (ret Continue)
    (fun '(write, addr, length) =>
       if write : bool then
         try_except_serial_Timeout (write_phase length)
           (ret Break)
           (fun '(data, c) =>
              let next_char_stop := c =? ord_S in
              FtdiI2C.write hi2c addr data true next_char_stop ;;
              ret (if next_char_stop then Break else Continue))
       else
         try_except_serial_Timeout read_phase
           (ret Break)
           (fun next_char_stop =>
              data <- FtdiI2C.read hi2c addr length next_char_stop ;;
              uart_write data ;;
              ret (if next_char_stop then Break else Continue))).

(** The inner [while True], lines 86-123; it ends by [break]. *)
Fixpoint inner_loop (hi2c : Z) (fuel : nat) : M unit :=
  match fuel with
  | O => fun s => (OutOfFuel, s)
  | S fuel' =>
      c <- frame_body hi2c ;;
      match c with
      | Break => ret tt
      | Continue => inner_loop hi2c fuel'
      end
  end.

(** Line 125: the f-string reads the local [next_char], which is unbound
    until a write command has assigned it. *)
Definition log_control_character : M unit :=
  fun s =>
    match next_char s with
    | None => (Raise UnboundLocalError, s)
    | Some c => emit (logger_debug c) s
    end.

(** One pass through the body of the outer [while True], lines 81-129. *)
Definition loop_body (hi2c : Z) (fuel : nat) : M ctl :=
  try_except
    (set_timeout Forever ;;
     char <- uart_read 1 ;;
     if bytes_eqb char [ord_S] then inner_loop hi2c fuel
     else log_control_character)
    is_KeyboardInterrupt
    (ret Break)
    (fun _ => ret Continue).

(** The outer [while True], lines 80-129. *)
Fixpoint main_loop (hi2c : Z) (fuel : nat) : M unit :=
  match fuel with
  | O => fun s => (OutOfFuel, s)
  | S fuel' =>
      c <- loop_body hi2c fuel' ;;
      match c with
      | Break => ret tt
      | Continue => main_loop hi2c fuel'
      end
  end.

(** The [with] statement of [main], lines 76-129: on the way out the serial
    port is closed first, then the I2C channel. *)
Definition main (hi2c : Z) (fuel : nat) : M unit :=
  with_exit (FtdiI2C.__exit__ hi2c)
    (with_exit (emit uart_close) (main_loop hi2c fuel)).

(** The state in which the loop starts: nothing done yet, [next_char]
    unbound. *)
Definition initial (inputs : list rx) (replies : list dll_reply) : state :=
  mk_state inputs Forever replies [] None.

End Bridge.

Import Bridge.

(** ** Vocabulary of the properties *)

(** The outcome of [write_device] once libmpsse has answered. *)
Definition write_outcome (reply : dll_reply) (size : Z) : res unit :=
  match FT_Status_of_int (status reply) with
  | None => Raise ValueError
  | Some status_enum =>
      if is_FT_OK status_enum then
        if size_transferred reply =? size then Ret tt else Raise AssertionError
      else Raise (FtdiError status_enum)
  end.

(** A transport failure of a write of [size] bytes: libmpsse answers with a
    status other than [FT_OK], or reports fewer or more bytes transferred
    than it was given. *)
Inductive write_failure (reply : dll_reply) (size : Z) : exn -> Prop :=
| failure_status status_enum :
    FT_Status_of_int (status reply) = Some status_enum ->
    status_enum <> FT_OK ->
    write_failure reply size (FtdiError status_enum)
| failure_short :
    status reply = 0 ->
    size_transferred reply <> size ->
    write_failure reply size AssertionError.

(** The loop has ended, by a return or by an exception that left it. *)
Definition ended {A} (r : res A) : Prop :=
  match r with
  | Ret _ | Raise _ => True
  | Blocked | OutOfFuel => False
  end.

(** The engine is idle: the loop has not ended and its last call is the
    read of one byte without a timeout. *)
Definition waiting_in_idle (out : res unit * state) : Prop :=
  fst out = Blocked /\
  exists calls, trace (snd out) = calls ++ [uart_read_call Forever 1].

(** A computation takes its reads from the front of the script, and a
    [KeyboardInterrupt] that comes out of it is the last outcome it took. *)
Definition takes_script {A} (m : M A) : Prop :=
  forall s r s', m s = (r, s') ->
    exists taken,
      uart_in s = taken ++ uart_in s' /\
      (r = Raise KeyboardInterrupt -> exists before, taken = before ++ [RxInterrupt]).

(** A computation that, unless it is left waiting, takes at least one
    outcome from the script. *)
Definition reads_first {A} (m : M A) : Prop :=
  forall s r s', m s = (r, s') ->
    r = Blocked \/
    exists x taken, uart_in s = x :: taken ++ uart_in s'.

(** A computation that is never cut off by the loop budget. *)
Definition within_budget {A} (m : M A) : Prop :=
  forall s r s', m s = (r, s') -> r <> OutOfFuel.

(** A call that serves a read command: a read of the I2C device or a
    write to the serial port. *)
Definition serves_read (ev : event) : bool :=
  match ev with
  | I2C_DeviceRead _ _ _ _ | uart_write_call _ => true
  | _ => false
  end.

(** A computation none of whose calls serves a read command. *)
Definition serves_no_read {A} (m : M A) : Prop :=
  forall s r s', m s = (r, s') ->
    exists calls,
      trace s' = trace s ++ calls /\ forallb (fun ev => negb (serves_read ev)) calls = true.

(** A libmpsse answer that reports success for [size] bytes. *)
Definition replied_ok (size : Z) : dll_reply := mk_reply 0 size [].

(** Scenario A of the specification: [S 0x54 0x02 0x00 0x00 'S']. *)
Definition scenario_A : state :=
  initial [Rx [83]; Rx [84; 2]; Rx [0; 0; 83]] [replied_ok 2].

(** Scenario B of the specification: [S 0x55 0x05 'S'], then silence.  The
    code asks for six more bytes after the header and the line gives one. *)
Definition scenario_B : state :=
  initial [Rx [83]; Rx [85; 5]; RxTimeout] [replied_ok 5].

(** Scenario B as pyserial delivers it: the read of six bytes after the
    header times out and returns the one byte received, the closing
    ['S']. *)
Definition scenario_B_on_pyserial : state :=
  initial [Rx [83]; Rx [85; 5]; Rx [83]] [replied_ok 0].

(** A write of one byte closed by a stop character: [S 0x54 0x01 0xAA 'P']. *)
Definition write_then_stop : state :=
  initial [Rx [83]; Rx [84; 1]; Rx [170; 80]] [replied_ok 1].

(** Scenario C of the specification, followed by a fresh frame: ['S'], a
    header that never comes, then [S 0x54 0x00 'P'] and silence. *)
Definition scenario_C_then_frame : state :=
  initial [Rx [83]; RxTimeout; Rx [83; 84]; RxTimeout] [replied_ok 0].

(** Scenario C as pyserial delivers it, followed by a fresh frame: ['S'],
    a header read that times out and returns no byte, then
    [S 0x54 0x00 'P']. *)
Definition scenario_C_on_pyserial : state :=
  initial [Rx [83]; Rx []; Rx [83]; Rx [84; 0]; Rx [80]] [replied_ok 0].

(** The first byte on the line is not ['S']. *)
Definition stray_byte_first : state :=
  initial [Rx [0]] [].

(** [S 0x54 0x00 'S'], then the stray byte ['A']. *)
Definition stray_byte_after_frame : state :=
  initial [Rx [83]; Rx [84; 0]; Rx [83]; Rx [65]] [replied_ok 0].

(** [S 0x54 0x01 0xAA 'S'] to a device that does not answer: libmpsse
    reports [FT_DEVICE_NOT_FOUND]. *)
Definition write_not_acknowledged : state :=
  initial [Rx [83]; Rx [84; 1]; Rx [170; 83]] [mk_reply 2 0 []; replied_ok 0].

(** ['S'], then Ctrl-C while the loop waits for the header. *)
Definition interrupt_in_header : state :=
  initial [Rx [83]; RxInterrupt] [replied_ok 0].

(** [S 0x54 0x01], then Ctrl-C while the loop waits for the payload. *)
Definition interrupt_in_payload : state :=
  initial [Rx [83]; Rx [84; 1]; RxInterrupt] [replied_ok 0].

(** [S 0x54 0x00 'S'], then Ctrl-C during the idle wait. *)
Definition frame_then_interrupt : state :=
  initial [Rx [83]; Rx [84; 0]; Rx [83]; RxInterrupt] [replied_ok 0; replied_ok 0].

(** ** The rest of ctypes_veneer.py and of pylibmpsse_i2c/__init__.py *)

(** The value of each member of [FT_Status]. *)
Definition FT_Status_value (st : FT_Status) : Z :=
  match st with
  | FT_OK => 0
  | FT_INVALID_HANDLE => 1
  | FT_DEVICE_NOT_FOUND => 2
  | FT_DEVICE_NOT_OPENED => 3
  | FT_IO_ERROR => 4
  | FT_INSUFFICIENT_RESOURCES => 5
  | FT_INVALID_PARAMETER => 6
  | FT_INVALID_BAUD_RATE => 7
  | FT_DEVICE_NOT_OPENED_FOR_ERASE => 8
  | FT_DEVICE_NOT_OPENED_FOR_WRITE => 9
  | FT_FAILED_TO_WRITE_DEVICE => 10
  | FT_EEPROM_READ_FAILED => 11
  | FT_EEPROM_WRITE_FAILED => 12
  | FT_EEPROM_ERASE_FAILED => 13
  | FT_EEPROM_NOT_PRESENT => 14
  | FT_EEPROM_NOT_PROGRAMMED => 15
  | FT_INVALID_ARGS => 16
  | FT_NOT_SUPPORTED => 17
  | FT_OTHER_ERROR => 18
  end.

(** What [_check_ftdi_status] raises for a status, if anything. *)
Definition status_exception (status : Z) : option exn :=
  match FT_Status_of_int status with
  | None => Some ValueError
  | Some status_enum =>
      if is_FT_OK status_enum then None else Some (FtdiError status_enum)
  end.

(** [FT_Status.__str__], the message of [FtdiError]:
    [self.name[3:].replace('_', ' ').title()]. *)
Module StatusText.

Import Stdlib.Strings.String Stdlib.Strings.Ascii.
Local Open Scope string_scope.

(** [self.name] *)
Definition name (st : FT_Status) : string :=
  match st with
  | FT_OK => "FT_OK"
  | FT_INVALID_HANDLE => "FT_INVALID_HANDLE"
  | FT_DEVICE_NOT_FOUND => "FT_DEVICE_NOT_FOUND"
  | FT_DEVICE_NOT_OPENED => "FT_DEVICE_NOT_OPENED"
  | FT_IO_ERROR => "FT_IO_ERROR"
  | FT_INSUFFICIENT_RESOURCES => "FT_INSUFFICIENT_RESOURCES"
  | FT_INVALID_PARAMETER => "FT_INVALID_PARAMETER"
  | FT_INVALID_BAUD_RATE => "FT_INVALID_BAUD_RATE"
  | FT_DEVICE_NOT_OPENED_FOR_ERASE => "FT_DEVICE_NOT_OPENED_FOR_ERASE"
  | FT_DEVICE_NOT_OPENED_FOR_WRITE => "FT_DEVICE_NOT_OPENED_FOR_WRITE"
  | FT_FAILED_TO_WRITE_DEVICE => "FT_FAILED_TO_WRITE_DEVICE"
  | FT_EEPROM_READ_FAILED => "FT_EEPROM_READ_FAILED"
  | FT_EEPROM_WRITE_FAILED => "FT_EEPROM_WRITE_FAILED"
  | FT_EEPROM_ERASE_FAILED => "FT_EEPROM_ERASE_FAILED"
  | FT_EEPROM_NOT_PRESENT => "FT_EEPROM_NOT_PRESENT"
  | FT_EEPROM_NOT_PROGRAMMED => "FT_EEPROM_NOT_PROGRAMMED"
  | FT_INVALID_ARGS => "FT_INVALID_ARGS"
  | FT_NOT_SUPPORTED => "FT_NOT_SUPPORTED"
  | FT_OTHER_ERROR => "FT_OTHER_ERROR"
  end.

Definition is_upper (c : ascii) : bool :=
  ((65 <=? nat_of_ascii c) && (nat_of_ascii c <=? 90))%nat.

Definition is_lower (c : ascii) : bool :=
  ((97 <=? nat_of_ascii c) && (nat_of_ascii c <=? 122))%nat.

Definition upper (c : ascii) : ascii :=
  if is_lower c then ascii_of_nat (nat_of_ascii c - 32) else c.

Definition lower (c : ascii) : ascii :=
  if is_upper c then ascii_of_nat (nat_of_ascii c + 32) else c.

(** [s[n:]] *)
Definition slice_from (n : nat) (s : string) : string :=
  substring n (length s - n) s.

(** [s.replace(old, new)] for single characters *)
Fixpoint replace (old new : ascii) (s : string) : string :=
  match s with
  | EmptyString => EmptyString
  | String c tl =>
      String (if Ascii.eqb c old then new else c) (replace old new tl)
  end.

(** [s.title()] on ASCII text: a letter that follows a letter is lowered,
    any other letter is raised, the rest is kept. *)
Fixpoint title_from (previous_is_cased : bool) (s : string) : string :=
  match s with
  | EmptyString => EmptyString
  | String c tl =>
      if is_upper c || is_lower c then
        String (if previous_is_cased then lower c else upper c)
               (title_from true tl)
      else String c (title_from false tl)
  end.

Definition title (s : string) : string := title_from false s.

Definition __str__ (st : FT_Status) : string :=
  title (replace "_" " " (slice_from 3 (name st))).

End StatusText.

(** The calls of the veneer that find, open and configure a channel.  They
    run against a world of their own: the answers libmpsse will give and
    the calls made so far. *)
Module Channels.

(** [FT_DEVICE_LIST_INFO_NODE]; the two character arrays hold 16 and 64
    bytes. *)
Record FT_DEVICE_LIST_INFO_NODE : Set := mk_node {
  Flags : Z;
  Type_ : Z;
  ID : Z;
  LocId : Z;
  SerialNumber : list Z;
  Description : list Z;
  ftHandle : Z
}.

(** [DeviceListInfo] of mytypes.py; text is a list of code points, and a
    null [ftHandle] reads as [None]. *)
Record DeviceListInfo : Set := mk_info {
  flags : Z;
  type : Z;
  id : Z;
  loc_id : Z;
  serial : list Z;
  description : list Z;
  handle : option Z
}.

(** [ChannelConfig] as [init_channel] fills it. *)
Record ChannelConfig : Set := mk_config {
  ClockRate : Z;
  LatencyTimer : Z;
  Options : Z
}.

Inductive channel_call : Set :=
| I2C_GetNumChannels
| I2C_GetChannelInfo (index : Z)
| I2C_OpenChannel (index : Z)
| I2C_InitChannel (handle : Z) (config : ChannelConfig).

(** What libmpsse answers: its status, the number or handle it stored
    through the pointer it was given, and the node it filled. *)
Record answer : Set := mk_answer {
  ans_status : Z;
  ans_value : Z;
  ans_node : FT_DEVICE_LIST_INFO_NODE
}.

Record world : Set := mk_world {
  answers : list answer;        (* answers of the calls still to come *)
  made : list channel_call      (* calls made so far, oldest first *)
}.

Definition W (A : Type) : Type := world -> res A * world.

Definition wret {A} (a : A) : W A := fun w => (Ret a, w).

Definition wraise {A} (e : exn) : W A := fun w => (Raise e, w).

Definition wbind {A B} (m : W A) (k : A -> W B) : W B :=
  fun w =>
    match m w with
    | (Ret a, w') => k a w'
    | (Raise e, w') => (Raise e, w')
    | (Blocked, w') => (Blocked, w')
    | (OutOfFuel, w') => (OutOfFuel, w')
    end.

(** [wrapped_function] of [_wrap_dll_func]: the call is made, its answer
    awaited and its status checked. *)
Definition wrapped_function (call : channel_call) : W answer :=
  fun w =>
    let w1 := mk_world (answers w) (made w ++ [call]) in
    match answers w with
    | [] => (Blocked, w1)
    | a :: tl =>
        match status_exception (ans_status a) with
        | Some e => (Raise e, mk_world tl (made w1))
        | None => (Ret a, mk_world tl (made w1))
        end
    end.

(** The value of a [c_void_p]: [None] for the null pointer. *)
Definition c_void_p_value (pointer : Z) : option Z :=
  if pointer =? 0 then None else Some pointer.

(** [FT_HANDLE(handle)]: [None] gives the null pointer. *)
Definition FT_HANDLE (handle : option Z) : Z :=
  match handle with
  | Some pointer => pointer
  | None => 0
  end.

(** A [c_char * size] field read as bytes: what precedes the first NUL
    among its [size] bytes.  [ctypes.string_at] of that is the same. *)
Definition char_array_value (size : nat) (field : list Z) : list Z :=
  Veneer.c_char_p_value (firstn size field).

(** [bytes.decode('utf8')]; [UnicodeDecodeError] is a [ValueError]. *)
Definition decode (utf8 : list Z -> option (list Z)) (bs : list Z) : W (list Z) :=
  match utf8 bs with
  | Some text => wret text
  | None => wraise ValueError
  end.

(** [FT_DEVICE_LIST_INFO_NODE.to_dataclass]; [utf8] is the decoder of the
    Python runtime. *)
Definition to_dataclass (utf8 : list Z -> option (list Z))
    (self : FT_DEVICE_LIST_INFO_NODE) : W DeviceListInfo :=
  wbind (decode utf8 (char_array_value 16 (SerialNumber self))) (fun serial =>
  wbind (decode utf8 (char_array_value 64 (Description self))) (fun description =>
  wret (mk_info (Flags self) (Type_ self) (ID self) (LocId self)
          serial description (c_void_p_value (ftHandle self))))).

Definition get_num_channels : W Z :=
  wbind (wrapped_function I2C_GetNumChannels) (fun a =>
  wret (Veneer.c_uint32 (ans_value a))).

Definition get_channel_info (utf8 : list Z -> option (list Z)) (index : Z)
    : W DeviceListInfo :=
  wbind (wrapped_function (I2C_GetChannelInfo (Veneer.c_uint32 index))) (fun a =>
  to_dataclass utf8 (ans_node a)).

Definition open_channel (index : Z) : W (option Z) :=
  wbind (wrapped_function (I2C_OpenChannel (Veneer.c_uint32 index))) (fun a =>
  wret (c_void_p_value (ans_value a))).

(** A Python number: an [int], or a finite [float] of value
    [mantissa * 2 ^ exponent]. *)
Inductive number : Set :=
| PyInt (value : Z)
| PyFloat (mantissa exponent : Z).

(** [int(x)]: towards zero. *)
Definition int (x : number) : Z :=
  match x with
  | PyInt value => value
  | PyFloat mantissa exponent =>
      if 0 <=? exponent then mantissa * 2 ^ exponent
      else Z.quot mantissa (2 ^ (- exponent))
  end.

(** [init_channel(handle, frequency, latency=16, options=0)] *)
Definition init_channel (handle : option Z) (frequency : number)
    (latency options : Z) : W unit :=
  let config := mk_config (Veneer.c_uint32 (int frequency))
                          (latency mod 2 ^ 8)
                          (Veneer.c_uint32 options) in
  wbind (wrapped_function (I2C_InitChannel (FT_HANDLE handle) config)) (fun _ =>
  wret tt).

(** The [for c in range(num_channels)] loop of [get_channels], from channel
    [c] with [count] channels still to ask for. *)
Fixpoint get_channels_from (utf8 : list Z -> option (list Z)) (c : Z)
    (count : nat) (results : list DeviceListInfo) : W (list DeviceListInfo) :=
  match count with
  | O => wret results
  | S count' =>
      wbind (get_channel_info utf8 c) (fun info =>
      get_channels_from utf8 (c + 1) count' (results ++ [info]))
  end.

(** [get_channels] of pylibmpsse_i2c/__init__.py *)
Definition get_channels (utf8 : list Z -> option (list Z))
    : W (list DeviceListInfo) :=
  wbind get_num_channels (fun num_channels =>
  get_channels_from utf8 0 (Z.to_nat num_channels) []).

(** [100e3], the default of [frequency] *)
Definition default_frequency : number := PyFloat 3125 5.

(** [FtdiI2C.__init__(frequency, channel)]; the result is [self.hi2c]. *)
Definition FtdiI2C_init (frequency : number) (channel : Z) : W (option Z) :=
  wbind (open_channel channel) (fun hi2c =>
  wbind (init_channel hi2c frequency 16 0) (fun _ =>
  wret hi2c)).

End Channels.

(** ** Vocabulary of the properties of the loop *)

Definition byte_ok (b : Z) : bool := (0 <=? b) && (b <? 256).

(** The serial port delivers bytes. *)
Definition rx_ok (x : rx) : bool :=
  match x with
  | Rx received => forallb byte_ok received
  | _ => true
  end.

(** A call the loop may make with I2C handle [hi2c]: a read without
    timeout asks for one byte; a write goes to [hi2c], to a 7-bit address,
    with bytes, with their count as size, and with the start and write bits
    set in its options. *)
Definition well_formed_call (hi2c : Z) (ev : event) : bool :=
  match ev with
  | uart_read_call Forever size => size =? 1
  | I2C_DeviceWrite handle device_address size buffer options =>
      (handle =? hi2c) && (0 <=? device_address) && (device_address <? 128)
      && (size =? len buffer) && forallb byte_ok buffer
      && ((options =? 17) || (options =? 19))
  | _ => true
  end.

(** A computation that, on a serial port that delivers bytes, makes only
    such calls. *)
Definition keeps_calls_well_formed {A} (hi2c : Z) (m : M A) : Prop :=
  forall s r s', m s = (r, s') ->
    forallb rx_ok (uart_in s) = true ->
    exists calls,
      trace s' = trace s ++ calls /\
      forallb (well_formed_call hi2c) calls = true.




(** An answer to [I2C_GetChannelInfo] that is accepted and converts to
    [info]. *)
Definition answers_with (utf8 : list Z -> option (list Z))
    (a : Channels.answer) (info : Channels.DeviceListInfo) : Prop :=
  Channels.ans_status a = 0 /\
  forall w, Channels.to_dataclass utf8 (Channels.ans_node a) w = (Ret info, w).

(** The requests [I2C_GetChannelInfo] for [count] channels from [c] on, in
    rising order. *)
Definition info_calls (c : Z) (count : nat) : list Channels.channel_call :=
  map (fun i => Channels.I2C_GetChannelInfo (c + Z.of_nat i)) (seq 0 count).

(** The decoder on ASCII text, where UTF-8 is the identity; it serves the
    examples. *)
Definition utf8_ascii (bs : list Z) : option (list Z) :=
  if forallb (fun b => (0 <=? b) && (b <? 128)) bs then Some bs else None.

(** A node as libmpsse fills it for an FT232H cable: serial ["FT1"],
    description ["C232HM"], the rest of both arrays NUL. *)
Definition cable_node (location handle : Z) : Channels.FT_DEVICE_LIST_INFO_NODE :=
  Channels.mk_node 2 8 67330068 location
    ([70; 84; 49] ++ repeat 0 13)
    ([67; 50; 51; 50; 72; 77] ++ repeat 0 58)
    handle.

(** * Properties *)

(** ** Running one pass of the inner loop *)

Lemma decode_address_write (addr : Z) : fst (decode_address addr) = true.
Proof.
  unfold decode_address; simpl.
  rewrite Z.mod_1_r; reflexivity.
Qed.

Lemma decode_address_shiftr (addr : Z) :
  snd (decode_address addr) = Z.shiftr addr 1.
Proof.
  unfold decode_address; simpl.
  rewrite Z.shiftr_div_pow2 by lia; reflexivity.
Qed.

Lemma decode_address_7bit (addr : Z) :
  0 <= addr < 256 -> 0 <= snd (decode_address addr) < 128.
Proof.
  intros H; unfold decode_address; simpl.
  split.
  - apply Z.div_pos; lia.
  - apply Z.div_lt_upper_bound; lia.
Qed.

Lemma decode_address_eq (addr : Z) : decode_address addr = (true, addr / 2).
Proof.
  unfold decode_address; rewrite Z.mod_1_r; reflexivity.
Qed.

Lemma write_device_answered hi2c address data start stop s reply replies :
  dll s = reply :: replies ->
  Veneer.write_device hi2c address data start stop s =
  (write_outcome reply (len data),
   mk_state (uart_in s) (uart_timeout s) replies
     (trace s ++ [I2C_DeviceWrite hi2c address (len data) data
                    (Veneer.transfer_options start stop 1)])
     (next_char s)).
Proof.
  intros Hdll.
  unfold Veneer.write_device, Veneer.wrapped_function, dll_call, bind, emit,
    write_outcome, Veneer._check_ftdi_status, assert, ret, raise.
  cbn [dll uart_in uart_timeout trace next_char].
  rewrite Hdll.
  destruct (FT_Status_of_int (status reply)) as [st|]; [|reflexivity].
  destruct (is_FT_OK st); [|reflexivity].
  destruct (size_transferred reply =? len data); reflexivity.
Qed.

Lemma write_device_unanswered hi2c address data start stop s :
  dll s = [] ->
  Veneer.write_device hi2c address data start stop s =
  (Blocked,
   mk_state (uart_in s) (uart_timeout s) []
     (trace s ++ [I2C_DeviceWrite hi2c address (len data) data
                    (Veneer.transfer_options start stop 1)])
     (next_char s)).
Proof.
  intros Hdll.
  unfold Veneer.write_device, Veneer.wrapped_function, dll_call, bind, emit.
  cbn [dll uart_in uart_timeout trace next_char].
  rewrite Hdll; reflexivity.
Qed.

(** A pass that receives the two header bytes and then at least one more
    byte goes through the write branch, whatever the address byte. *)
Lemma frame_body_write hi2c s a l bs rest :
  uart_in s = Rx [a; l] :: Rx bs :: rest ->
  bs <> [] ->
  frame_body hi2c s =
  (FtdiI2C.write hi2c (a / 2) (removelast bs) true (last bs 0 =? ord_S) ;;
   ret (if last bs 0 =? ord_S then Break else Continue))
    (mk_state rest Seconds_0_7 (dll s)
       (trace s ++ [uart_read_call Seconds_0_7 2;
                    uart_read_call Seconds_0_7 (l + 1)])
       (Some (last bs 0))).
Proof.
  intros Hin Hbs.
  unfold frame_body, try_except_serial_Timeout, address_phase, write_phase,
    bind, set_timeout, uart_read, unpack2, ret.
  cbn [dll uart_in uart_timeout trace next_char].
  rewrite Hin, decode_address_eq.
  cbn [dll uart_in uart_timeout trace next_char].
  destruct bs as [|b bs']; [congruence|].
  unfold unpack_star_last, ret.
  rewrite <- app_assoc; reflexivity.
Qed.

(** A write that libmpsse accepts: the stop flag of the call is set exactly
    when the character after the payload is ['S'], and exactly then the
    pass ends by [break]. *)
Lemma frame_body_write_accepted hi2c s a l bs rest reply replies :
  uart_in s = Rx [a; l] :: Rx bs :: rest ->
  bs <> [] ->
  dll s = reply :: replies ->
  write_outcome reply (len (removelast bs)) = Ret tt ->
  frame_body hi2c s =
  (Ret (if last bs 0 =? ord_S then Break else Continue),
   mk_state rest Seconds_0_7 replies
     (trace s ++
      [uart_read_call Seconds_0_7 2;
       uart_read_call Seconds_0_7 (l + 1);
       I2C_DeviceWrite hi2c (a / 2) (len (removelast bs)) (removelast bs)
         (Veneer.transfer_options true (last bs 0 =? ord_S) 1)])
     (Some (last bs 0))).
Proof.
  intros Hin Hbs Hdll Hok.
  rewrite (frame_body_write hi2c s a l bs rest Hin Hbs).
  unfold bind at 1, FtdiI2C.write.
  erewrite write_device_answered by exact Hdll.
  rewrite Hok. unfold ret.
  cbn [dll uart_in uart_timeout trace next_char].
  rewrite <- app_assoc. reflexivity.
Qed.

(** A pass whose header read times out makes no further call and goes
    round the inner loop again. *)
Lemma frame_body_header_timeout hi2c rest t replies calls c :
  frame_body hi2c (mk_state (RxTimeout :: rest) t replies calls c) =
  (Ret Continue,
   mk_state rest Seconds_0_7 replies
     (calls ++ [uart_read_call Seconds_0_7 2]) c).
Proof. reflexivity. Qed.

(** ** The direction bit and the read command *)

(** C1 (the code departs from the specification).  Line 91 computes the direction
    as [addr % 1 == 0], which holds of every byte: the odd address byte
    0x55 is decoded as a write to 0x2A, where the specification has a read.
    The address [addr // 2] is as specified. *)
Theorem C1_odd_address_byte_decoded_as_write :
  Z.odd 85 = true /\
  decode_address 85 = (true, 42) /\
  (forall raw_addr, fst (decode_address raw_addr) = true).
Proof.
  split; [reflexivity|].
  split; [reflexivity|].
  exact decode_address_write.
Qed.

(** [FtdiI2C.read] makes no call on libmpsse and returns [None]. *)
Lemma FtdiI2C_read_returns_None hi2c address length stop s :
  FtdiI2C.read hi2c address length stop s = (Ret None, s).
Proof. reflexivity. Qed.

(** C2 (the code departs from the specification).  On the read frame of scenario B,
    [S 0x55 0x05 'S'], the loop takes the write branch: it asks the serial
    port for six more bytes, calls neither [I2C_DeviceRead] nor
    [uart.write], and is back at the idle read when the wait times out.
    The read branch, were it reached, would get [None] from
    [FtdiI2C.read].  On pyserial the wait for the six bytes ends by
    returning the one byte received, the closing ['S']: the loop then
    issues an empty I2C write with the stop flag, and still no read. *)
Theorem C2_read_frame_is_not_served :
  main_loop 7 5 scenario_B =
  (Blocked,
   mk_state [] Forever [replied_ok 5]
     [uart_read_call Forever 1; uart_read_call Seconds_0_7 2;
      uart_read_call Seconds_0_7 6; uart_read_call Forever 1]
     None) /\
  FtdiI2C.read 7 42 5 true scenario_B = (Ret None, scenario_B) /\
  main_loop 7 5 scenario_B_on_pyserial =
  (Blocked,
   mk_state [] Forever []
     [uart_read_call Forever 1; uart_read_call Seconds_0_7 2;
      uart_read_call Seconds_0_7 6;
      I2C_DeviceWrite 7 42 0 [] (Veneer.transfer_options true true 1);
      uart_read_call Forever 1]
     (Some 83)).
Proof. repeat split; reflexivity. Qed.

(** ** The character that ends a frame *)

(** C3 (the code departs from the specification).  On scenario A, a write closed by
    ['S'], line 107 sets [next_char_stop] to [True]: the write goes out
    with the stop bit set in its options, and the loop leaves the inner
    loop for the idle read instead of reading the next header. *)
Theorem C3_write_closed_by_S_sends_stop :
  main_loop 7 5 scenario_A =
  (Blocked,
   mk_state [] Forever []
     [uart_read_call Forever 1; uart_read_call Seconds_0_7 2;
      uart_read_call Seconds_0_7 3;
      I2C_DeviceWrite 7 42 2 [0; 0] (Veneer.transfer_options true true 1);
      uart_read_call Forever 1]
     (Some 83)).
Proof. reflexivity. Qed.

(** C4 (the code departs from the specification).  On a write closed by ['P'], a
    stop character, the write goes out without the stop bit and the loop
    stays in the inner loop: its next call reads a two-byte header under
    the bounded timeout, where the specification has the idle read. *)
Theorem C4_stop_character_keeps_the_frame_open :
  main_loop 7 5 write_then_stop =
  (Blocked,
   mk_state [] Seconds_0_7 []
     [uart_read_call Forever 1; uart_read_call Seconds_0_7 2;
      uart_read_call Seconds_0_7 2;
      I2C_DeviceWrite 7 42 1 [170] (Veneer.transfer_options true false 1);
      uart_read_call Seconds_0_7 2]
     (Some 80)).
Proof. reflexivity. Qed.

(** ** Timeouts and stray bytes *)

(** C5 (the code departs from the specification).  When the header read times out,
    line 94 continues the inner loop: no libmpsse call is made, but the
    next call is again the two-byte header read, so the ['S'] of the frame
    that follows is taken as an address byte and that frame is lost.  On
    pyserial the timed-out header read returns no byte: the unpacking of
    line 90 fails, the clause [except serial.Timeout] raises [TypeError]
    and the loop ends, again without a libmpsse call and without a return
    to the idle read. *)
Theorem C5_header_timeout_stays_in_the_frame :
  (forall hi2c rest t replies calls c,
     frame_body hi2c (mk_state (RxTimeout :: rest) t replies calls c) =
     (Ret Continue,
      mk_state rest Seconds_0_7 replies
        (calls ++ [uart_read_call Seconds_0_7 2]) c)) /\
  main_loop 7 5 scenario_C_then_frame =
  (Blocked,
   mk_state [] Forever [replied_ok 0]
     [uart_read_call Forever 1; uart_read_call Seconds_0_7 2;
      uart_read_call Seconds_0_7 2; uart_read_call Seconds_0_7 85;
      uart_read_call Forever 1]
     None) /\
  main_loop 7 5 scenario_C_on_pyserial =
  (Raise TypeError,
   mk_state [Rx [83]; Rx [84; 0]; Rx [80]] Seconds_0_7 [replied_ok 0]
     [uart_read_call Forever 1; uart_read_call Seconds_0_7 2]
     None).
Proof. split; [intros; reflexivity | split; reflexivity]. Qed.

(** The same two scenarios on pyserial, where a timed-out read returns
    the bytes it has, fewer than asked for, instead of raising: a header of
    no byte or of one byte cannot be unpacked, the [ValueError] reaches the
    clause [except serial.Timeout] and the [TypeError] raised there ends
    the loop; the lone ['S'] after a read header becomes an empty write
    with the stop flag. *)
Lemma short_header_read_ends_the_loop :
  main_loop 7 5 (initial [Rx [83]; Rx []] []) =
  (Raise TypeError,
   mk_state [] Seconds_0_7 []
     [uart_read_call Forever 1; uart_read_call Seconds_0_7 2] None) /\
  main_loop 7 5 (initial [Rx [83]; Rx [84]] []) =
  (Raise TypeError,
   mk_state [] Seconds_0_7 []
     [uart_read_call Forever 1; uart_read_call Seconds_0_7 2] None).
Proof. split; reflexivity. Qed.

Lemma short_payload_read_is_written :
  main_loop 7 5 (initial [Rx [83]; Rx [85; 5]; Rx [83]] [replied_ok 0]) =
  (Blocked,
   mk_state [] Forever []
     [uart_read_call Forever 1; uart_read_call Seconds_0_7 2;
      uart_read_call Seconds_0_7 6;
      I2C_DeviceWrite 7 42 0 [] (Veneer.transfer_options true true 1);
      uart_read_call Forever 1]
     (Some 83)).
Proof. reflexivity. Qed.

(** C7 (the code departs from the specification).  Line 125 formats [next_char],
    not the byte just read.  When the first byte on the line is not ['S']
    the name is unbound and the loop ends with [UnboundLocalError]; after a
    write frame the message shows the last character of that frame (here
    ['S'], 83) instead of the stray byte (['A'], 65). *)
Theorem C7_stray_byte_in_idle :
  main_loop 7 5 stray_byte_first =
  (Raise UnboundLocalError,
   mk_state [] Forever [] [uart_read_call Forever 1] None) /\
  main_loop 7 5 stray_byte_after_frame =
  (Blocked,
   mk_state [] Forever []
     [uart_read_call Forever 1; uart_read_call Seconds_0_7 2;
      uart_read_call Seconds_0_7 1;
      I2C_DeviceWrite 7 42 0 [] (Veneer.transfer_options true true 1);
      uart_read_call Forever 1; logger_debug 83;
      uart_read_call Forever 1]
     (Some 83)).
Proof. split; reflexivity. Qed.

(** ** The payload of a write *)

Lemma removelast_full (bs : list Z) (l : Z) :
  0 <= l -> len bs = l + 1 ->
  removelast bs = firstn (Z.to_nat l) bs /\
  last bs 0 = nth (Z.to_nat l) bs 0 /\
  bs = firstn (Z.to_nat l) bs ++ [nth (Z.to_nat l) bs 0] /\
  len (firstn (Z.to_nat l) bs) = l.
Proof.
  unfold len; intros Hl Hlen.
  assert (Hn : length bs = S (Z.to_nat l)) by lia.
  assert (Hne : bs <> []) by (intros ->; discriminate).
  destruct (exists_last Hne) as [init [c ->]].
  rewrite length_app in Hn; simpl in Hn.
  assert (Hinit : length init = Z.to_nat l) by lia.
  rewrite removelast_last, last_last, <- Hinit.
  rewrite firstn_app, firstn_all, Nat.sub_diag, firstn_O, app_nil_r.
  rewrite app_nth2, Nat.sub_diag by lia; simpl.
  repeat split; try reflexivity.
  lia.
Qed.

(** C9.  When the read of [length + 1] bytes after the header returns that
    many bytes, the pass calls the serial port twice and libmpsse once: the
    buffer handed to [I2C_DeviceWrite] is the first [length] of those
    bytes, and the byte after them is kept out of it; it only decides the
    stop flag and becomes [next_char]. *)
Theorem C9_payload_is_the_first_length_bytes hi2c s a l bs rest :
  uart_in s = Rx [a; l] :: Rx bs :: rest ->
  0 <= l ->
  len bs = l + 1 ->
  let payload := firstn (Z.to_nat l) bs in
  let terminator := nth (Z.to_nat l) bs 0 in
  bs = payload ++ [terminator] /\
  len payload = l /\
  exists r s',
    frame_body hi2c s = (r, s') /\
    next_char s' = Some terminator /\
    trace s' =
      trace s ++
      [uart_read_call Seconds_0_7 2;
       uart_read_call Seconds_0_7 (l + 1);
       I2C_DeviceWrite hi2c (a / 2) l payload
         (Veneer.transfer_options true (terminator =? ord_S) 1)].
Proof.
  intros Hin Hl Hlen payload terminator.
  destruct (removelast_full bs l Hl Hlen) as (Hinit & Hlast & Hsplit & Hsize).
  fold payload in Hinit, Hsplit, Hsize.
  fold terminator in Hlast, Hsplit.
  split; [exact Hsplit|].
  split; [exact Hsize|].
  assert (Hne : bs <> []) by (intros ->; unfold len in Hlen; simpl in Hlen; lia).
  rewrite (frame_body_write hi2c s a l bs rest Hin Hne).
  rewrite Hinit, Hlast.
  unfold bind, FtdiI2C.write.
  destruct (dll s) as [|reply replies] eqn:Hdll.
  - rewrite write_device_unanswered by reflexivity.
    cbn [trace next_char]. rewrite Hsize.
    eexists; eexists; split; [reflexivity|].
    cbn [trace next_char]. rewrite <- app_assoc. split; reflexivity.
  - erewrite write_device_answered by reflexivity.
    cbn [trace next_char]. rewrite Hsize.
    destruct (write_outcome reply l);
      (eexists; eexists; split; [reflexivity|]);
      cbn [trace next_char]; rewrite <- app_assoc; split; reflexivity.
Qed.

(** C9 at the frame [0x54 0x02 0x11 0x22 'P'] received after the start
    character. *)
Lemma C9_payload_witness :
  [17; 34; 80] = [17; 34] ++ [80] /\
  len [17; 34] = 2 /\
  exists r s',
    frame_body 7 (initial [Rx [84; 2]; Rx [17; 34; 80]] [replied_ok 2]) = (r, s') /\
    next_char s' = Some 80 /\
    trace s' =
      [uart_read_call Seconds_0_7 2;
       uart_read_call Seconds_0_7 3;
       I2C_DeviceWrite 7 42 2 [17; 34] (Veneer.transfer_options true false 1)].
Proof.
  exact (C9_payload_is_the_first_length_bytes 7
           (initial [Rx [84; 2]; Rx [17; 34; 80]] [replied_ok 2])
           84 2 [17; 34; 80] [] eq_refl ltac:(lia) eq_refl).
Defined.

(** ** [read_device] and the first NUL of its buffer *)

Lemma c_char_p_value_no_nul (memory : list Z) :
  ~ In 0 (Veneer.c_char_p_value memory).
Proof.
  induction memory as [|b tl IH]; simpl; [tauto|].
  destruct (Z.eqb_spec b 0) as [->|Hb]; simpl; [tauto|].
  intros [H|H]; [congruence | exact (IH H)].
Qed.

Lemma c_char_p_value_prefix (memory : list Z) :
  memory = Veneer.c_char_p_value memory \/
  exists tl, memory = Veneer.c_char_p_value memory ++ 0 :: tl.
Proof.
  induction memory as [|b tl IH]; simpl; [left; reflexivity|].
  destruct (Z.eqb_spec b 0) as [->|Hb]; simpl.
  - right; exists tl; reflexivity.
  - destruct IH as [IH|[tl' IH]].
    + left; rewrite <- IH; reflexivity.
    + right; exists tl'; rewrite <- IH; reflexivity.
Qed.

Lemma c_char_p_value_terminated (value : list Z) :
  Veneer.c_char_p_value (Veneer.c_char_p_memory value) =
  Veneer.c_char_p_value value.
Proof.
  unfold Veneer.c_char_p_memory.
  induction value as [|b tl IH]; simpl; [reflexivity|].
  destruct (b =? 0); [reflexivity | rewrite IH; reflexivity].
Qed.

Lemma c_char_p_value_length (memory : list Z) :
  (length (Veneer.c_char_p_value memory) <= length memory)%nat /\
  (length (Veneer.c_char_p_value memory) = length memory <-> ~ In 0 memory).
Proof.
  induction memory as [|b tl [IHle IHeq]]; simpl; [intuition lia|].
  destruct (Z.eqb_spec b 0) as [->|Hb]; simpl.
  - split; [lia|]. split; [discriminate | intros H; exfalso; apply H; left; reflexivity].
  - split; [lia|]. split.
    + intros H [H0|H0]; [congruence|]. apply IHeq; [lia | exact H0].
    + intros H. f_equal. apply IHeq. intros H0; apply H; right; exact H0.
Qed.

(** A buffer filled to its end keeps only the terminating NUL of the
    memory it overwrote. *)
Lemma store_at_start_full (received : list Z) (n : nat) :
  length received = n ->
  Veneer.store_at_start received (Veneer.c_char_p_memory (repeat 0 n)) =
  Veneer.c_char_p_memory received.
Proof.
  intros Hn; unfold Veneer.store_at_start, Veneer.c_char_p_memory.
  rewrite Hn, skipn_app, repeat_length, Nat.sub_diag.
  rewrite skipn_all2 by (rewrite repeat_length; lia).
  reflexivity.
Qed.

(** What [read_device] returns when it returns. *)
Lemma read_device_returns memory handle address n start stop s result s' :
  Veneer.read_device memory handle address n start stop s = (Ret result, s') ->
  exists reply replies,
    dll s = reply :: replies /\
    0 <= n /\
    size_transferred reply = n /\
    result = Veneer.c_char_p_value
               (Veneer.store_at_start (stored reply)
                  (Veneer.c_char_p_memory (repeat 0 (Z.to_nat n)))).
Proof.
  unfold Veneer.read_device, Veneer.bytes_of_count, Veneer.wrapped_function,
    Veneer._check_ftdi_status, dll_call, bind, emit, assert, ret, raise.
  destruct (n <? - Veneer.PY_SSIZE_T_MAX - 1); [discriminate|].
  destruct (Z.ltb_spec n 0) as [Hneg|Hpos]; [discriminate|].
  destruct (Veneer.PY_SSIZE_T_MAX - Veneer.PyBytesObject_SIZE <? n);
    [discriminate|].
  destruct (memory <? n); [discriminate|].
  cbn [dll uart_in uart_timeout trace next_char].
  destruct (dll s) as [|reply replies]; [discriminate|].
  destruct (FT_Status_of_int (status reply)) as [st|]; [|discriminate].
  destruct (is_FT_OK st); [|discriminate].
  destruct (Z.eqb_spec (size_transferred reply) n) as [Hsz|Hsz]; [|discriminate].
  intros H; injection H as Hres _.
  exists reply, replies. repeat split; try assumption. symmetry; exact Hres.
Qed.

(** C10.  When [read_device] returns, that is when libmpsse reported [FT_OK]
    and the full transfer, its result is the received data cut at the first
    NUL byte: it holds no NUL and is either all of the data or the part
    that a NUL follows.  So a NUL in the data makes the result shorter than
    [bytes_to_read], and the result has [bytes_to_read] bytes exactly when
    the data has no NUL.  The data are the bytes libmpsse stored in the
    buffer, as many as it reports transferred. *)
Theorem C10_read_device_cuts_at_first_nul
    memory handle address bytes_to_read start stop s reply replies result s' :
  dll s = reply :: replies ->
  len (stored reply) = size_transferred reply ->
  Veneer.read_device memory handle address bytes_to_read start stop s =
    (Ret result, s') ->
  result = Veneer.c_char_p_value (stored reply) /\
  ~ In 0 result /\
  (stored reply = result \/ exists tl, stored reply = result ++ 0 :: tl) /\
  (In 0 (stored reply) -> len result < bytes_to_read) /\
  (len result = bytes_to_read <-> ~ In 0 (stored reply)).
Proof.
  intros Hdll Hsize Hrun.
  destruct (read_device_returns _ _ _ _ _ _ _ _ _ Hrun)
    as (reply' & replies' & Hdll' & Hn & Hfull & Hres).
  rewrite Hdll in Hdll'; injection Hdll' as <- <-.
  assert (Hlen : length (stored reply) = Z.to_nat bytes_to_read)
    by (unfold len in Hsize; lia).
  rewrite (store_at_start_full _ _ Hlen), c_char_p_value_terminated in Hres.
  destruct (c_char_p_value_length (stored reply)) as [Hle Heq].
  subst result.
  split; [reflexivity|].
  split; [apply c_char_p_value_no_nul|].
  split; [apply c_char_p_value_prefix|].
  unfold len in *.
  split.
  - intros Hnul.
    assert (length (Veneer.c_char_p_value (stored reply)) <> length (stored reply))
      by (intros E; apply Heq in E; exact (E Hnul)).
    lia.
  - rewrite <- Heq. split; intros E; lia.
Qed.

(** C10 at a read of three bytes whose second byte is NUL. *)
Lemma C10_read_device_witness :
  [1] = Veneer.c_char_p_value [1; 0; 3] /\
  ~ In 0 [1] /\
  ([1; 0; 3] = [1] \/ exists tl, [1; 0; 3] = [1] ++ 0 :: tl) /\
  (In 0 [1; 0; 3] -> len [1] < 3) /\
  (len [1] = 3 <-> ~ In 0 [1; 0; 3]).
Proof.
  exact (C10_read_device_cuts_at_first_nul (2 ^ 30) 7 42 3 true true
           (initial [] [mk_reply 0 3 [1; 0; 3]]) (mk_reply 0 3 [1; 0; 3]) []
           [1]
           (mk_state [] Forever [] [I2C_DeviceRead 7 42 3 3] None)
           eq_refl eq_refl eq_refl).
Defined.

(** ** Failures of the I2C write *)

Lemma write_failure_outcome reply size e :
  write_failure reply size e ->
  write_outcome reply size = Raise e /\ is_KeyboardInterrupt e = false.
Proof.
  intros [st Hst Hnok | Hst Hsz]; unfold write_outcome.
  - rewrite Hst. split; [|reflexivity].
    destruct st; try reflexivity. congruence.
  - rewrite Hst; simpl.
    destruct (Z.eqb_spec (size_transferred reply) size); [congruence|].
    split; reflexivity.
Qed.

(** The idle read that receives ['S'] enters the inner loop. *)
Lemma loop_body_start hi2c fuel s rest :
  uart_in s = Rx [ord_S] :: rest ->
  loop_body hi2c fuel s =
  try_except (inner_loop hi2c fuel) is_KeyboardInterrupt
    (ret Break) (fun _ => ret Continue)
    (mk_state rest Forever (dll s)
       (trace s ++ [uart_read_call Forever 1]) (next_char s)).
Proof.
  intros Hin.
  unfold loop_body, try_except, bind, set_timeout, uart_read.
  cbn [dll uart_in uart_timeout trace next_char].
  rewrite Hin; reflexivity.
Qed.

(** C6 (the code departs from the specification).  A transport failure of
    the I2C write, be it a status other than [FT_OK] ([FtdiError]) or a
    transfer count that differs from the payload size ([AssertionError]),
    is caught nowhere in the loop: [hi2c.write] is called after the [try]
    of line 100, and [except KeyboardInterrupt] does not match.  The loop
    that line 79 announces as going on until Ctrl-C ends with that
    exception, right after the libmpsse call, where the specification has
    the engine abort the frame and return to idle.  Nothing has been
    written to the serial port for the frame. *)
Theorem C6_write_failure_leaves_the_loop
    hi2c fuel s a l bs rest reply replies e :
  uart_in s = Rx [ord_S] :: Rx [a; l] :: Rx bs :: rest ->
  bs <> [] ->
  dll s = reply :: replies ->
  write_failure reply (len (removelast bs)) e ->
  main_loop hi2c (S (S fuel)) s =
  (Raise e,
   mk_state rest Seconds_0_7 replies
     (trace s ++
      [uart_read_call Forever 1;
       uart_read_call Seconds_0_7 2;
       uart_read_call Seconds_0_7 (l + 1);
       I2C_DeviceWrite hi2c (a / 2) (len (removelast bs)) (removelast bs)
         (Veneer.transfer_options true (last bs 0 =? ord_S) 1)])
     (Some (last bs 0))).
Proof.
  intros Hin Hbs Hdll Hfail.
  destruct (write_failure_outcome _ _ _ Hfail) as [Hout Hki].
  cbn [main_loop]. unfold bind at 1.
  rewrite (loop_body_start hi2c (S fuel) s _ Hin).
  unfold try_except at 1. cbn [inner_loop]. unfold bind at 1.
  set (s1 := mk_state (Rx [a; l] :: Rx bs :: rest) Forever (dll s)
                (trace s ++ [uart_read_call Forever 1]) (next_char s)).
  rewrite (frame_body_write hi2c s1 a l bs rest eq_refl Hbs).
  unfold bind at 1, FtdiI2C.write.
  erewrite write_device_answered by exact Hdll.
  rewrite Hout, Hki. subst s1.
  cbn [dll uart_in uart_timeout trace next_char].
  rewrite <- !app_assoc. reflexivity.
Qed.

(** C6 at a write that the device does not acknowledge. *)
Lemma C6_write_failure_witness :
  main_loop 7 2 write_not_acknowledged =
  (Raise (FtdiError FT_DEVICE_NOT_FOUND),
   mk_state [] Seconds_0_7 [replied_ok 0]
     [uart_read_call Forever 1;
      uart_read_call Seconds_0_7 2;
      uart_read_call Seconds_0_7 2;
      I2C_DeviceWrite 7 42 1 [170] (Veneer.transfer_options true true 1)]
     (Some 83)).
Proof.
  refine (C6_write_failure_leaves_the_loop 7 0 write_not_acknowledged
            84 1 [170; 83] [] (mk_reply 2 0 []) [replied_ok 0]
            (FtdiError FT_DEVICE_NOT_FOUND) eq_refl _ eq_refl _).
  - discriminate.
  - apply failure_status; [reflexivity | discriminate].
Defined.

(** After the write that the device does not acknowledge the engine is not
    waiting in idle: the loop has ended with [FtdiError], and so has [main]
    once both handles are closed. *)
Lemma write_not_acknowledged_ends_main :
  ~ waiting_in_idle (main_loop 7 5 write_not_acknowledged) /\
  fst (main_loop 7 5 write_not_acknowledged) =
    Raise (FtdiError FT_DEVICE_NOT_FOUND) /\
  fst (main 7 5 write_not_acknowledged) =
    Raise (FtdiError FT_DEVICE_NOT_FOUND).
Proof.
  split; [|split; reflexivity].
  intros [Hblocked _]. discriminate Hblocked.
Qed.

(** ** How the loop ends *)

Section TakesScript.

Local Ltac taken_nil :=
  exists []; split; [reflexivity | discriminate].

(* the outcome of a first part that did not return is the outcome of the whole *)
Local Ltac passed_on H t1 Ht1 Hki1 :=
  injection H as <- <-; exists t1; split;
  [ exact Ht1
  | let Hr := fresh "Hr" in
    intros Hr;
    first [ discriminate Hr
          | injection Hr as ->; apply Hki1; reflexivity ] ].

Lemma takes_script_ret {A} (a : A) : takes_script (ret a).
Proof. intros s r s' H; injection H as <- <-; taken_nil. Qed.

Lemma takes_script_bind {A B} (m : M A) (k : A -> M B) :
  takes_script m -> (forall a, takes_script (k a)) -> takes_script (bind m k).
Proof.
  intros Hm Hk s r s' H. unfold bind in H.
  destruct (m s) as [ra s1] eqn:Ems.
  destruct (Hm _ _ _ Ems) as (t1 & Ht1 & Hki1).
  destruct ra as [a|e| |]; try (passed_on H t1 Ht1 Hki1).
  destruct (Hk a _ _ _ H) as (t2 & Ht2 & Hki2).
  exists (t1 ++ t2). split.
  - rewrite Ht1, Ht2, app_assoc; reflexivity.
  - intros Hr. destruct (Hki2 Hr) as [before ->].
    exists (t1 ++ before). rewrite app_assoc; reflexivity.
Qed.

Lemma takes_script_try_except {A B} (body : M A) E (handler : M B) rest :
  takes_script body -> takes_script handler ->
  (forall a, takes_script (rest a)) ->
  takes_script (try_except body E handler rest).
Proof.
  intros Hb Hh Hr s r s' H. unfold try_except in H.
  destruct (body s) as [ra s1] eqn:Ebs.
  destruct (Hb _ _ _ Ebs) as (t1 & Ht1 & Hki1).
  assert (Hjoin : forall (m : M B), takes_script m -> m s1 = (r, s') ->
            exists taken, uart_in s = taken ++ uart_in s' /\
              (r = Raise KeyboardInterrupt ->
               exists before, taken = before ++ [RxInterrupt])).
  { intros m Hm Hrun. destruct (Hm _ _ _ Hrun) as (t2 & Ht2 & Hki2).
    exists (t1 ++ t2). split.
    - rewrite Ht1, Ht2, app_assoc; reflexivity.
    - intros Hr'. destruct (Hki2 Hr') as [before ->].
      exists (t1 ++ before). rewrite app_assoc; reflexivity. }
  destruct ra as [a|e| |].
  - exact (Hjoin _ (Hr a) H).
  - destruct (E e).
    + exact (Hjoin _ Hh H).
    + passed_on H t1 Ht1 Hki1.
  - passed_on H t1 Ht1 Hki1.
  - passed_on H t1 Ht1 Hki1.
Qed.

Lemma takes_script_try_except_serial_Timeout {A B} (body : M A)
    (handler : M B) rest :
  takes_script body -> takes_script handler ->
  (forall a, takes_script (rest a)) ->
  takes_script (try_except_serial_Timeout body handler rest).
Proof.
  intros Hb Hh Hr s r s' H. unfold try_except_serial_Timeout in H.
  destruct (body s) as [ra s1] eqn:Ebs.
  destruct (Hb _ _ _ Ebs) as (t1 & Ht1 & Hki1).
  assert (Hjoin : forall (m : M B), takes_script m -> m s1 = (r, s') ->
            exists taken, uart_in s = taken ++ uart_in s' /\
              (r = Raise KeyboardInterrupt ->
               exists before, taken = before ++ [RxInterrupt])).
  { intros m Hm Hrun. destruct (Hm _ _ _ Hrun) as (t2 & Ht2 & Hki2).
    exists (t1 ++ t2). split.
    - rewrite Ht1, Ht2, app_assoc; reflexivity.
    - intros Hr'. destruct (Hki2 Hr') as [before ->].
      exists (t1 ++ before). rewrite app_assoc; reflexivity. }
  destruct ra as [a|e| |].
  - exact (Hjoin _ (Hr a) H).
  - destruct (is_SerialTimeout e).
    + exact (Hjoin _ Hh H).
    + passed_on H t1 Ht1 Hki1.
  - passed_on H t1 Ht1 Hki1.
  - passed_on H t1 Ht1 Hki1.
Qed.

Lemma takes_script_set_timeout t : takes_script (set_timeout t).
Proof. intros s r s' H; injection H as <- <-; taken_nil. Qed.

Lemma takes_script_emit ev : takes_script (emit ev).
Proof. intros s r s' H; injection H as <- <-; taken_nil. Qed.

Lemma takes_script_uart_read size : takes_script (uart_read size).
Proof.
  intros s r s' H. unfold uart_read in H.
  destruct (uart_in s) as [|[received| |] tl] eqn:Ein.
  - injection H as <- <-. cbn [uart_in]. taken_nil.
  - injection H as <- <-. cbn [uart_in].
    exists [Rx received]; split; [reflexivity | discriminate].
  - destruct (uart_timeout s); injection H as <- <-; cbn [uart_in].
    + taken_nil.
    + exists [RxTimeout]; split; [reflexivity | discriminate].
  - injection H as <- <-. cbn [uart_in].
    exists [RxInterrupt]; split; [reflexivity|].
    intros _; exists []; reflexivity.
Qed.

Lemma takes_script_uart_write data : takes_script (uart_write data).
Proof.
  destruct data; [apply takes_script_emit|].
  intros s r s' H; injection H as <- <-; taken_nil.
Qed.

Lemma takes_script_unpack2 bs : takes_script (unpack2 bs).
Proof.
  intros s r s' H. unfold unpack2, ret, raise in H.
  destruct bs as [|a [|b [|c tl]]]; injection H as <- <-; taken_nil.
Qed.

Lemma takes_script_unpack_star_last bs : takes_script (unpack_star_last bs).
Proof.
  intros s r s' H. unfold unpack_star_last, ret, raise in H.
  destruct bs; injection H as <- <-; taken_nil.
Qed.

Lemma takes_script_assert cond : takes_script (assert cond).
Proof.
  intros s r s' H. unfold assert, ret, raise in H.
  destruct cond; injection H as <- <-; taken_nil.
Qed.

Lemma takes_script_wrapped_function call :
  takes_script (Veneer.wrapped_function call).
Proof.
  intros s r s' H.
  unfold Veneer.wrapped_function, Veneer._check_ftdi_status, dll_call, bind,
    emit, ret, raise in H.
  cbn [dll uart_in uart_timeout trace next_char] in H.
  destruct (dll s) as [|reply tl].
  - injection H as <- <-; taken_nil.
  - destruct (FT_Status_of_int (status reply)) as [st|].
    + destruct (is_FT_OK st); injection H as <- <-; taken_nil.
    + injection H as <- <-; taken_nil.
Qed.

Lemma takes_script_write hi2c address data start stop :
  takes_script (FtdiI2C.write hi2c address data start stop).
Proof.
  apply takes_script_bind; [apply takes_script_wrapped_function|].
  intros reply; apply takes_script_assert.
Qed.

Lemma takes_script_exit hi2c : takes_script (FtdiI2C.__exit__ hi2c).
Proof.
  apply takes_script_bind; [apply takes_script_wrapped_function|].
  intros reply; apply takes_script_ret.
Qed.

Lemma takes_script_frame_body hi2c : takes_script (frame_body hi2c).
Proof.
  unfold frame_body.
  apply takes_script_bind; [apply takes_script_set_timeout | intros _].
  apply takes_script_try_except_serial_Timeout.
  - unfold address_phase.
    apply takes_script_bind; [apply takes_script_uart_read | intros bs].
    apply takes_script_bind; [apply takes_script_unpack2 | intros [addr length]].
    destruct (decode_address addr); apply takes_script_ret.
  - apply takes_script_ret.
  - intros [[write addr] length]. destruct write.
    + apply takes_script_try_except_serial_Timeout.
      * unfold write_phase.
        apply takes_script_bind; [apply takes_script_set_timeout | intros _].
        apply takes_script_bind; [apply takes_script_uart_read | intros bs].
        apply takes_script_bind;
          [apply takes_script_unpack_star_last | intros [data c]].
        intros s r s' H; injection H as <- <-; taken_nil.
      * apply takes_script_ret.
      * intros [data c].
        apply takes_script_bind; [apply takes_script_write | intros _].
        apply takes_script_ret.
    + apply takes_script_try_except_serial_Timeout.
      * unfold read_phase.
        apply takes_script_bind; [apply takes_script_set_timeout | intros _].
        apply takes_script_bind; [apply takes_script_uart_read | intros c].
        apply takes_script_ret.
      * apply takes_script_ret.
      * intros next_char_stop.
        apply takes_script_bind; [apply takes_script_ret | intros data].
        apply takes_script_bind; [apply takes_script_uart_write | intros _].
        apply takes_script_ret.
Qed.

Lemma takes_script_inner_loop hi2c fuel : takes_script (inner_loop hi2c fuel).
Proof.
  induction fuel as [|fuel IH]; cbn [inner_loop].
  - intros s r s' H; injection H as <- <-; taken_nil.
  - apply takes_script_bind; [apply takes_script_frame_body|].
    intros [|]; [exact IH | apply takes_script_ret].
Qed.

Lemma takes_script_idle_pass hi2c fuel :
  takes_script
    (set_timeout Forever ;;
     char <- uart_read 1 ;;
     if bytes_eqb char [ord_S] then inner_loop hi2c fuel
     else log_control_character).
Proof.
  apply takes_script_bind; [apply takes_script_set_timeout | intros _].
  apply takes_script_bind; [apply takes_script_uart_read | intros char].
  destruct (bytes_eqb char [ord_S]); [apply takes_script_inner_loop|].
  intros s r s' H. unfold log_control_character in H.
  destruct (next_char s); injection H as <- <-; taken_nil.
Qed.

End TakesScript.

(** One pass of the outer loop never lets a [KeyboardInterrupt] through,
    and it ends by [break] only after taking one from the script. *)
Lemma loop_body_outcome hi2c fuel s r s' :
  loop_body hi2c fuel s = (r, s') ->
  r <> Raise KeyboardInterrupt /\
  (exists taken, uart_in s = taken ++ uart_in s') /\
  (r = Ret Break ->
   exists before, uart_in s = before ++ RxInterrupt :: uart_in s').
Proof.
  unfold loop_body, try_except. intros H.
  destruct ((set_timeout Forever ;;
             char <- uart_read 1 ;;
             if bytes_eqb char [ord_S] then inner_loop hi2c fuel
             else log_control_character) s) as [ra s1] eqn:Epass.
  destruct (takes_script_idle_pass hi2c fuel _ _ _ Epass) as (t1 & Ht1 & Hki1).
  destruct ra as [a|e| |].
  - injection H as <- <-.
    split; [discriminate|]. split; [exists t1; exact Ht1 | discriminate].
  - destruct e; cbn [is_KeyboardInterrupt] in H; injection H as <- <-;
      (split; [discriminate|]); (split; [exists t1; exact Ht1|]);
      try discriminate.
    intros _. destruct (Hki1 eq_refl) as [before ->].
    exists before. rewrite Ht1, <- app_assoc. reflexivity.
  - injection H as <- <-.
    split; [discriminate|]. split; [exists t1; exact Ht1 | discriminate].
  - injection H as <- <-.
    split; [discriminate|]. split; [exists t1; exact Ht1 | discriminate].
Qed.

(** The outer loop returns only after a [KeyboardInterrupt], the last
    outcome it took from the script, and never raises one. *)
Lemma main_loop_outcome hi2c fuel : forall s r s',
  main_loop hi2c fuel s = (r, s') ->
  r <> Raise KeyboardInterrupt /\
  (r = Ret tt ->
   exists before, uart_in s = before ++ RxInterrupt :: uart_in s').
Proof.
  induction fuel as [|fuel IH]; intros s r s' H; cbn [main_loop] in H.
  - injection H as <- <-. split; discriminate.
  - unfold bind in H.
    destruct (loop_body hi2c fuel s) as [rc s1] eqn:Ebody.
    destruct (loop_body_outcome _ _ _ _ _ Ebody) as (Hnki & [t1 Ht1] & Hbreak).
    destruct rc as [[|]|e| |].
    + destruct (IH _ _ _ H) as [Hnki' Hret].
      split; [exact Hnki'|].
      intros Hr. destruct (Hret Hr) as [before Hbefore].
      exists (t1 ++ before). rewrite Ht1, Hbefore, app_assoc. reflexivity.
    + injection H as <- <-. split; [discriminate|].
      intros _. exact (Hbreak eq_refl).
    + injection H as <- <-. split; [|discriminate].
      intros E; injection E as ->. apply Hnki; reflexivity.
    + injection H as <- <-. split; discriminate.
    + injection H as <- <-. split; discriminate.
Qed.

(** Closing the channel calls [I2C_CloseChannel] and nothing else. *)
Lemma exit_outcome hi2c s r s' :
  FtdiI2C.__exit__ hi2c s = (r, s') ->
  uart_in s' = uart_in s /\
  trace s' = trace s ++ [I2C_CloseChannel hi2c] /\
  r <> Raise KeyboardInterrupt.
Proof.
  unfold FtdiI2C.__exit__, Veneer.close_channel, Veneer.wrapped_function,
    Veneer._check_ftdi_status, dll_call, bind, emit, ret, raise.
  cbn [dll uart_in uart_timeout trace next_char].
  destruct (dll s) as [|reply tl].
  - intros H; injection H as <- <-. repeat split; discriminate.
  - destruct (FT_Status_of_int (status reply)) as [st|].
    + destruct (is_FT_OK st); intros H; injection H as <- <-;
        repeat split; discriminate.
    + intros H; injection H as <- <-. repeat split; discriminate.
Qed.

(** Ctrl-C during the idle wait ends the loop by [break]. *)
Lemma interrupt_in_idle_ends_the_loop hi2c fuel rest t replies calls c :
  main_loop hi2c (S fuel) (mk_state (RxInterrupt :: rest) t replies calls c) =
  (Ret tt,
   mk_state rest Forever replies (calls ++ [uart_read_call Forever 1]) c).
Proof. reflexivity. Qed.

(** Whenever [main] ends, by a return or by an exception, the serial port
    has been closed and then [I2C_CloseChannel] has been called on the
    handle of the engine.  [main] returns only after a [KeyboardInterrupt]
    that was the last outcome read from the serial port, and no
    [KeyboardInterrupt] leaves it. *)
Lemma main_ends_with_the_channel_closed hi2c fuel s r s' :
  main hi2c fuel s = (r, s') ->
  ended r ->
  r <> Raise KeyboardInterrupt /\
  (r = Ret tt ->
   exists before, uart_in s = before ++ RxInterrupt :: uart_in s') /\
  exists calls, trace s' = calls ++ [uart_close; I2C_CloseChannel hi2c].
Proof.
  unfold main, with_exit at 1. intros H Hended.
  destruct (with_exit (emit uart_close) (main_loop hi2c fuel) s)
    as [r1 s2] eqn:Einner.
  unfold with_exit in Einner.
  destruct (main_loop hi2c fuel s) as [r0 s1] eqn:Eloop.
  destruct (main_loop_outcome _ _ _ _ _ Eloop) as [Hnki Hret].
  assert (Hs2 : ended r1 ->
            r1 = r0 /\ uart_in s2 = uart_in s1 /\
            trace s2 = trace s1 ++ [uart_close]).
  { destruct r0 as [[]|e| |]; injection Einner as <- <-;
      cbn [ended]; intros Hr; try contradiction; repeat split. }
  unfold bind in H.
  destruct r1 as [[]|e| |].
  - destruct (Hs2 I) as (<- & Hin2 & Htr2).
    destruct (FtdiI2C.__exit__ hi2c s2) as [rx sx] eqn:Eexit.
    destruct (exit_outcome _ _ _ _ Eexit) as (Hinx & Htrx & Hnkix).
    assert (Htrace : trace sx = (trace s1 ++ [uart_close; I2C_CloseChannel hi2c]))
      by (rewrite Htrx, Htr2, <- app_assoc; reflexivity).
    destruct rx as [[]|e| |]; injection H as <- <-.
    + split; [discriminate|]. split.
      * intros _. rewrite Hinx, Hin2. exact (Hret eq_refl).
      * eexists; exact Htrace.
    + split; [exact Hnkix|]. split; [discriminate|]. eexists; exact Htrace.
    + contradiction.
    + contradiction.
  - destruct (Hs2 I) as (<- & Hin2 & Htr2).
    destruct (FtdiI2C.__exit__ hi2c s2) as [rx sx] eqn:Eexit.
    destruct (exit_outcome _ _ _ _ Eexit) as (Hinx & Htrx & Hnkix).
    assert (Htrace : trace sx = (trace s1 ++ [uart_close; I2C_CloseChannel hi2c]))
      by (rewrite Htrx, Htr2, <- app_assoc; reflexivity).
    destruct rx as [[]|e'| |]; injection H as <- <-.
    + split; [exact Hnki|]. split; [discriminate|]. eexists; exact Htrace.
    + split; [exact Hnkix|]. split; [discriminate|]. eexists; exact Htrace.
    + contradiction.
    + contradiction.
  - injection H as <- <-. contradiction.
  - injection H as <- <-. contradiction.
Qed.

(** [main] on a write frame followed by Ctrl-C during the idle wait. *)
Lemma main_ends_after_idle_interrupt :
  Ret tt <> Raise KeyboardInterrupt /\
  (Ret tt = Ret tt ->
   exists before,
     uart_in frame_then_interrupt = before ++ RxInterrupt :: []) /\
  exists calls,
    [uart_read_call Forever 1; uart_read_call Seconds_0_7 2;
     uart_read_call Seconds_0_7 1;
     I2C_DeviceWrite 7 42 0 [] (Veneer.transfer_options true true 1);
     uart_read_call Forever 1; uart_close; I2C_CloseChannel 7] =
    calls ++ [uart_close; I2C_CloseChannel 7].
Proof.
  exact (main_ends_with_the_channel_closed 7 5 frame_then_interrupt
           (Ret tt)
           (mk_state [] Forever []
              [uart_read_call Forever 1; uart_read_call Seconds_0_7 2;
               uart_read_call Seconds_0_7 1;
               I2C_DeviceWrite 7 42 0 [] (Veneer.transfer_options true true 1);
               uart_read_call Forever 1; uart_close; I2C_CloseChannel 7]
              (Some 83))
           eq_refl I).
Defined.

(** C8 (the code departs from the specification).  Operator cancellation
    is not the only way out of the loop that line 79 announces as going on
    until Ctrl-C.  The write that the device does not acknowledge ends the
    loop, and [main], with [FtdiError], although the script holds no
    [KeyboardInterrupt].  Nor does every cancellation end the loop by the
    [break] of line 129: a Ctrl-C during the header read or the payload
    read reaches the clause [except serial.Timeout] first, and the loop
    ends with the [TypeError] raised there.  On each of these paths the
    serial port and the I2C channel are closed on the way out. *)
Theorem C8_loop_ends_without_cancellation :
  (~ In RxInterrupt (uart_in write_not_acknowledged) /\
   main 7 5 write_not_acknowledged =
   (Raise (FtdiError FT_DEVICE_NOT_FOUND),
    mk_state [] Seconds_0_7 []
      [uart_read_call Forever 1; uart_read_call Seconds_0_7 2;
       uart_read_call Seconds_0_7 2;
       I2C_DeviceWrite 7 42 1 [170] (Veneer.transfer_options true true 1);
       uart_close; I2C_CloseChannel 7]
      (Some 83))) /\
  main 7 5 interrupt_in_header =
  (Raise TypeError,
   mk_state [] Seconds_0_7 []
     [uart_read_call Forever 1; uart_read_call Seconds_0_7 2;
      uart_close; I2C_CloseChannel 7]
     None) /\
  main 7 5 interrupt_in_payload =
  (Raise TypeError,
   mk_state [] Seconds_0_7 []
     [uart_read_call Forever 1; uart_read_call Seconds_0_7 2;
      uart_read_call Seconds_0_7 2;
      uart_close; I2C_CloseChannel 7]
     None).
Proof.
  split; [split; [|reflexivity] | split; reflexivity].
  cbn. intros [H|[H|[H|[]]]]; discriminate H.
Qed.

(** ** The loop budget

    The loops of [main] have no bound; the model gives them a budget of
    passes.  Every pass takes an outcome from the script, so a budget
    larger than the script is never used up, and a larger budget does not
    change a run that did not use up its own. *)

Section Budget.

Lemma within_budget_ret {A} (a : A) : within_budget (ret a).
Proof. intros s r s' H; injection H as <- _; discriminate. Qed.

Lemma within_budget_bind {A B} (m : M A) (k : A -> M B) :
  within_budget m -> (forall a, within_budget (k a)) -> within_budget (bind m k).
Proof.
  intros Hm Hk s r s' H. unfold bind in H.
  destruct (m s) as [ra s1] eqn:Ems. pose proof (Hm _ _ _ Ems) as Hra.
  destruct ra as [a|e| |]; [exact (Hk a _ _ _ H) | | | congruence];
    injection H as <- _; discriminate.
Qed.

Lemma within_budget_try_except {A B} (body : M A) E (handler : M B) rest :
  within_budget body -> within_budget handler ->
  (forall a, within_budget (rest a)) ->
  within_budget (try_except body E handler rest).
Proof.
  intros Hb Hh Hr s r s' H. unfold try_except in H.
  destruct (body s) as [ra s1] eqn:Ebs. pose proof (Hb _ _ _ Ebs) as Hra.
  destruct ra as [a|e| |]; [exact (Hr a _ _ _ H) | | | congruence].
  - destruct (E e); [exact (Hh _ _ _ H) | injection H as <- _; discriminate].
  - injection H as <- _; discriminate.
Qed.

Lemma within_budget_try_except_serial_Timeout {A B} (body : M A)
    (handler : M B) rest :
  within_budget body -> within_budget handler ->
  (forall a, within_budget (rest a)) ->
  within_budget (try_except_serial_Timeout body handler rest).
Proof.
  intros Hb Hh Hr s r s' H. unfold try_except_serial_Timeout in H.
  destruct (body s) as [ra s1] eqn:Ebs. pose proof (Hb _ _ _ Ebs) as Hra.
  destruct ra as [a|e| |]; [exact (Hr a _ _ _ H) | | | congruence].
  - destruct (is_SerialTimeout e);
      [exact (Hh _ _ _ H) | injection H as <- _; discriminate].
  - injection H as <- _; discriminate.
Qed.

Lemma within_budget_uart_read size : within_budget (uart_read size).
Proof.
  intros s r s' H. unfold uart_read in H.
  destruct (uart_in s) as [|[received| |] tl];
    [ | | destruct (uart_timeout s) | ]; injection H as <- _; discriminate.
Qed.

Lemma within_budget_write hi2c address data start stop :
  within_budget (FtdiI2C.write hi2c address data start stop).
Proof.
  intros s r s' H.
  unfold FtdiI2C.write, Veneer.write_device, Veneer.wrapped_function,
    Veneer._check_ftdi_status, dll_call, bind, emit, assert, ret, raise in H.
  cbn [dll uart_in uart_timeout trace next_char] in H.
  destruct (dll s) as [|reply tl]; [injection H as <- _; discriminate|].
  destruct (FT_Status_of_int (status reply)) as [st|];
    [|injection H as <- _; discriminate].
  destruct (is_FT_OK st); [|injection H as <- _; discriminate].
  destruct (size_transferred reply =? len data);
    injection H as <- _; discriminate.
Qed.

Lemma within_budget_frame_body hi2c : within_budget (frame_body hi2c).
Proof.
  assert (Hstep : forall (X : Type) (f : state -> X * state),
            within_budget (fun s => (Ret (fst (f s)), snd (f s))))
    by (intros X f s r s' H; injection H as <- _; discriminate).
  assert (Hset : forall t, within_budget (set_timeout t))
    by (intros t s r s' H; injection H as <- _; discriminate).
  unfold frame_body.
  apply within_budget_bind; [apply Hset | intros _].
  apply within_budget_try_except_serial_Timeout.
  - unfold address_phase.
    apply within_budget_bind; [apply within_budget_uart_read | intros bs].
    apply within_budget_bind.
    + intros s r s' H. unfold unpack2, ret, raise in H.
      destruct bs as [|a [|b [|c tl]]]; injection H as <- _; discriminate.
    + intros [addr length]. destruct (decode_address addr).
      apply within_budget_ret.
  - apply within_budget_ret.
  - intros [[write addr] length]. destruct write.
    + apply within_budget_try_except_serial_Timeout.
      * unfold write_phase.
        apply within_budget_bind; [apply Hset | intros _].
        apply within_budget_bind; [apply within_budget_uart_read | intros bs].
        apply within_budget_bind.
        -- intros s r s' H. unfold unpack_star_last, ret, raise in H.
           destruct bs; injection H as <- _; discriminate.
        -- intros [data c] s r s' H; injection H as <- _; discriminate.
      * apply within_budget_ret.
      * intros [data c].
        apply within_budget_bind; [apply within_budget_write | intros _].
        apply within_budget_ret.
    + apply within_budget_try_except_serial_Timeout.
      * unfold read_phase.
        apply within_budget_bind; [apply Hset | intros _].
        apply within_budget_bind; [apply within_budget_uart_read | intros c].
        apply within_budget_ret.
      * apply within_budget_ret.
      * intros next_char_stop.
        apply within_budget_bind; [apply within_budget_ret | intros data].
        apply within_budget_bind; [|intros _; apply within_budget_ret].
        intros s r s' H. unfold uart_write, emit, raise in H.
        destruct data; injection H as <- _; discriminate.
Qed.

Lemma reads_first_uart_read size : reads_first (uart_read size).
Proof.
  intros s r s' H. unfold uart_read in H.
  destruct (uart_in s) as [|[received| |] tl];
    [ | | destruct (uart_timeout s) | ]; injection H as <- <-;
    cbn [uart_in];
    first [ left; reflexivity | right; eexists; exists []; reflexivity ].
Qed.

Lemma reads_first_bind {A B} (m : M A) (k : A -> M B) :
  reads_first m -> (forall a, takes_script (k a)) -> reads_first (bind m k).
Proof.
  intros Hm Hk s r s' H. unfold bind in H.
  destruct (m s) as [ra s1] eqn:Ems.
  destruct (Hm _ _ _ Ems) as [->|(x & t1 & Ht1)].
  - injection H as <- _. left; reflexivity.
  - destruct ra as [a|e| |];
      try (injection H as <- <-; right; exists x, t1; exact Ht1).
    destruct (Hk a _ _ _ H) as (t2 & Ht2 & _).
    right. exists x, (t1 ++ t2).
    rewrite Ht1, Ht2, <- app_assoc. reflexivity.
Qed.

Lemma reads_first_try_except {A B} (body : M A) E (handler : M B) rest :
  reads_first body -> takes_script handler ->
  (forall a, takes_script (rest a)) ->
  reads_first (try_except body E handler rest).
Proof.
  intros Hb Hh Hr s r s' H. unfold try_except in H.
  destruct (body s) as [ra s1] eqn:Ebs.
  destruct (Hb _ _ _ Ebs) as [->|(x & t1 & Ht1)].
  - injection H as <- _. left; reflexivity.
  - assert (Hjoin : forall (m : M B), takes_script m -> m s1 = (r, s') ->
              exists x taken, uart_in s = x :: taken ++ uart_in s').
    { intros m Hm Hrun. destruct (Hm _ _ _ Hrun) as (t2 & Ht2 & _).
      exists x, (t1 ++ t2). rewrite Ht1, Ht2, <- app_assoc. reflexivity. }
    right. destruct ra as [a|e| |].
    + exact (Hjoin _ (Hr a) H).
    + destruct (E e); [exact (Hjoin _ Hh H)|].
      injection H as <- <-. exists x, t1; exact Ht1.
    + injection H as <- <-. exists x, t1; exact Ht1.
    + injection H as <- <-. exists x, t1; exact Ht1.
Qed.

Lemma reads_first_try_except_serial_Timeout {A B} (body : M A)
    (handler : M B) rest :
  reads_first body -> takes_script handler ->
  (forall a, takes_script (rest a)) ->
  reads_first (try_except_serial_Timeout body handler rest).
Proof.
  intros Hb Hh Hr s r s' H. unfold try_except_serial_Timeout in H.
  destruct (body s) as [ra s1] eqn:Ebs.
  destruct (Hb _ _ _ Ebs) as [->|(x & t1 & Ht1)].
  - injection H as <- _. left; reflexivity.
  - assert (Hjoin : forall (m : M B), takes_script m -> m s1 = (r, s') ->
              exists x taken, uart_in s = x :: taken ++ uart_in s').
    { intros m Hm Hrun. destruct (Hm _ _ _ Hrun) as (t2 & Ht2 & _).
      exists x, (t1 ++ t2). rewrite Ht1, Ht2, <- app_assoc. reflexivity. }
    right. destruct ra as [a|e| |].
    + exact (Hjoin _ (Hr a) H).
    + destruct (is_SerialTimeout e); [exact (Hjoin _ Hh H)|].
      injection H as <- <-. exists x, t1; exact Ht1.
    + injection H as <- <-. exists x, t1; exact Ht1.
    + injection H as <- <-. exists x, t1; exact Ht1.
Qed.

Lemma reads_first_frame_body hi2c : reads_first (frame_body hi2c).
Proof.
  intros s r s' H.
  unfold frame_body in H. unfold bind at 1, set_timeout at 1 in H.
  match type of H with
  | ?m ?st = _ => assert (Hrf : reads_first m); [|exact (Hrf _ _ _ H)]
  end.
  apply reads_first_try_except_serial_Timeout.
  - unfold address_phase.
    apply reads_first_bind; [apply reads_first_uart_read | intros bs].
    apply takes_script_bind; [apply takes_script_unpack2 | intros [addr length]].
    destruct (decode_address addr); apply takes_script_ret.
  - apply takes_script_ret.
  - intros [[write addr] length].
    pose proof (takes_script_frame_body hi2c) as Hall.
    destruct write.
    + apply takes_script_try_except_serial_Timeout.
      * unfold write_phase.
        apply takes_script_bind; [apply takes_script_set_timeout | intros _].
        apply takes_script_bind; [apply takes_script_uart_read | intros bs].
        apply takes_script_bind;
          [apply takes_script_unpack_star_last | intros [data c]].
        intros s0 r0 s0' H0; injection H0 as <- <-.
        exists []; split; [reflexivity | discriminate].
      * apply takes_script_ret.
      * intros [data c].
        apply takes_script_bind; [apply takes_script_write | intros _].
        apply takes_script_ret.
    + apply takes_script_try_except_serial_Timeout.
      * unfold read_phase.
        apply takes_script_bind; [apply takes_script_set_timeout | intros _].
        apply takes_script_bind; [apply takes_script_uart_read | intros c].
        apply takes_script_ret.
      * apply takes_script_ret.
      * intros next_char_stop.
        apply takes_script_bind; [apply takes_script_ret | intros data].
        apply takes_script_bind; [apply takes_script_uart_write | intros _].
        apply takes_script_ret.
Qed.

Lemma taken_length (s s' : state) (taken : list rx) :
  uart_in s = taken ++ uart_in s' ->
  (length (uart_in s') <= length (uart_in s))%nat.
Proof. intros ->. rewrite length_app. lia. Qed.

(** A budget larger than the script is enough for the inner loop. *)
Lemma inner_loop_budget hi2c fuel : forall s r s',
  (length (uart_in s) < fuel)%nat ->
  inner_loop hi2c fuel s = (r, s') -> r <> OutOfFuel.
Proof.
  induction fuel as [|fuel IH]; intros s r s' Hlen H; [lia|].
  cbn [inner_loop] in H. unfold bind in H.
  destruct (frame_body hi2c s) as [rc s1] eqn:Ebody.
  pose proof (within_budget_frame_body hi2c _ _ _ Ebody) as Hrc.
  destruct rc as [[|]|e| |]; try (injection H as <- _; congruence).
  destruct (reads_first_frame_body hi2c _ _ _ Ebody)
    as [Hb|(x & t & Ht)]; [discriminate|].
  apply (IH s1 r s'); [|exact H].
  rewrite Ht in Hlen. cbn [length] in Hlen. rewrite length_app in Hlen. lia.
Qed.

(** One pass of the outer loop within its budget, and what it leaves of
    the script. *)
Lemma loop_body_budget hi2c fuel s r s' :
  (length (uart_in s) <= fuel)%nat ->
  loop_body hi2c fuel s = (r, s') ->
  r <> OutOfFuel /\
  (r = Ret Continue -> (length (uart_in s') < length (uart_in s))%nat).
Proof.
  intros Hlen H.
  unfold loop_body, try_except in H. unfold bind at 1, set_timeout at 1 in H.
  unfold bind at 1, uart_read at 1 in H.
  cbn [dll uart_in uart_timeout trace next_char] in H.
  destruct (uart_in s) as [|[received| |] tl] eqn:Ein.
  - injection H as <- _. split; discriminate.
  - cbn [length] in Hlen.
    destruct (bytes_eqb received [ord_S]).
    + match type of H with
      | context [inner_loop hi2c fuel ?st] =>
          destruct (inner_loop hi2c fuel st) as [ri si] eqn:Einner;
          pose proof (inner_loop_budget hi2c fuel st ri si) as Hb;
          pose proof (takes_script_inner_loop hi2c fuel st ri si Einner)
            as (t & Ht & _)
      end.
      cbn [uart_in] in Hb, Ht. specialize (Hb ltac:(lia) Einner).
      assert (Hsi : (length (uart_in si) <= length tl)%nat)
        by (rewrite Ht, length_app; lia).
      destruct ri as [[]|e| |]; try congruence.
      * injection H as <- <-. split; [discriminate|]. intros _.
        cbn [length]. lia.
      * destruct (is_KeyboardInterrupt e); injection H as <- <-;
          split; discriminate.
      * injection H as <- _. split; discriminate.
    + unfold log_control_character in H. cbn [next_char] in H.
      destruct (next_char s); cbn in H; injection H as <- <-.
      * split; [discriminate|]. intros _. cbn [uart_in length]. lia.
      * split; discriminate.
  - injection H as <- _. split; discriminate.
  - cbn in H. injection H as <- _. split; discriminate.
Qed.

(** A budget larger than the script is enough for the outer loop. *)
Lemma main_loop_budget hi2c fuel : forall s r s',
  (length (uart_in s) < fuel)%nat ->
  main_loop hi2c fuel s = (r, s') -> r <> OutOfFuel.
Proof.
  induction fuel as [|fuel IH]; intros s r s' Hlen H; [lia|].
  cbn [main_loop] in H. unfold bind in H.
  destruct (loop_body hi2c fuel s) as [rc s1] eqn:Ebody.
  destruct (loop_body_budget hi2c fuel s rc s1 ltac:(lia) Ebody) as [Hrc Hless].
  destruct rc as [[|]|e| |]; try (injection H as <- _; congruence).
  apply (IH s1 r s'); [|exact H].
  specialize (Hless eq_refl). lia.
Qed.

(** A run that its budget did not cut off is the same under any larger
    budget. *)
Lemma inner_loop_more_budget hi2c fuel : forall fuel' s r s',
  (fuel <= fuel')%nat ->
  inner_loop hi2c fuel s = (r, s') -> r <> OutOfFuel ->
  inner_loop hi2c fuel' s = (r, s').
Proof.
  induction fuel as [|fuel IH]; intros fuel' s r s' Hle H Hr.
  - injection H as <- _. congruence.
  - destruct fuel' as [|fuel']; [lia|].
    cbn [inner_loop] in *. unfold bind in *.
    destruct (frame_body hi2c s) as [[[|]|e| |] s1]; try exact H.
    apply IH; [lia | exact H | exact Hr].
Qed.

Lemma loop_body_more_budget hi2c fuel fuel' s r s' :
  (fuel <= fuel')%nat ->
  loop_body hi2c fuel s = (r, s') -> r <> OutOfFuel ->
  loop_body hi2c fuel' s = (r, s').
Proof.
  intros Hle H Hr.
  unfold loop_body, try_except in *. unfold bind at 1, set_timeout at 1 in H.
  unfold bind at 1, set_timeout at 1. unfold bind in *.
  match type of H with
  | context [uart_read 1 ?st] => destruct (uart_read 1 st) as [[char|e| |] s1]
  end; try exact H.
  destruct (bytes_eqb char [ord_S]); [|exact H].
  destruct (inner_loop hi2c fuel s1) as [ri si] eqn:Einner.
  assert (Hri : ri <> OutOfFuel)
    by (intros ->; injection H as <- _; congruence).
  rewrite (inner_loop_more_budget hi2c fuel fuel' s1 ri si Hle Einner Hri).
  exact H.
Qed.

Lemma main_loop_more_budget hi2c fuel : forall fuel' s r s',
  (fuel <= fuel')%nat ->
  main_loop hi2c fuel s = (r, s') -> r <> OutOfFuel ->
  main_loop hi2c fuel' s = (r, s').
Proof.
  induction fuel as [|fuel IH]; intros fuel' s r s' Hle H Hr.
  - injection H as <- _. congruence.
  - destruct fuel' as [|fuel']; [lia|].
    cbn [main_loop] in *. unfold bind in *.
    destruct (loop_body hi2c fuel s) as [rc s1] eqn:Ebody.
    assert (Hrc : rc <> OutOfFuel)
      by (intros ->; injection H as <- _; congruence).
    rewrite (loop_body_more_budget hi2c fuel fuel' s rc s1 ltac:(lia) Ebody Hrc).
    destruct rc as [[|]|e| |]; try exact H.
    apply IH; [lia | exact H | exact Hr].
Qed.

End Budget.

(** ** No read command is served

    Whatever arrives on the serial line, the loop never calls
    [I2C_DeviceRead] and never writes to the serial port: the read branch
    of the inner loop is not reached, and [FtdiI2C.read] gives it nothing
    to write. *)

Section NoRead.

Local Ltac no_call H :=
  injection H as <- <-; exists []; split; [symmetry; apply app_nil_r | reflexivity].

Local Ltac one_call H :=
  injection H as <- <-; cbn [trace]; eexists; split; [reflexivity | reflexivity].

Lemma serves_no_read_ret {A} (a : A) : serves_no_read (ret a).
Proof. intros s r s' H; no_call H. Qed.

Lemma serves_no_read_raise {A} e : serves_no_read (@raise A e).
Proof. intros s r s' H; no_call H. Qed.

Lemma serves_no_read_join (s s1 s' : state) (c1 c2 : list event) :
  trace s1 = trace s ++ c1 ->
  forallb (fun ev => negb (serves_read ev)) c1 = true ->
  trace s' = trace s1 ++ c2 ->
  forallb (fun ev => negb (serves_read ev)) c2 = true ->
  exists calls,
    trace s' = trace s ++ calls /\
    forallb (fun ev => negb (serves_read ev)) calls = true.
Proof.
  intros H1 F1 H2 F2. exists (c1 ++ c2). split.
  - rewrite H2, H1, app_assoc. reflexivity.
  - rewrite forallb_app, F1, F2. reflexivity.
Qed.

Lemma serves_no_read_bind {A B} (m : M A) (k : A -> M B) :
  serves_no_read m -> (forall a, serves_no_read (k a)) ->
  serves_no_read (bind m k).
Proof.
  intros Hm Hk s r s' H. unfold bind in H.
  destruct (m s) as [ra s1] eqn:Ems.
  destruct (Hm _ _ _ Ems) as (c1 & H1 & F1).
  destruct ra as [a|e| |];
    try (injection H as <- <-; exists c1; split; assumption).
  destruct (Hk a _ _ _ H) as (c2 & H2 & F2).
  exact (serves_no_read_join _ _ _ _ _ H1 F1 H2 F2).
Qed.

Lemma serves_no_read_try_except {A B} (body : M A) E (handler : M B) rest :
  serves_no_read body -> serves_no_read handler ->
  (forall a, serves_no_read (rest a)) ->
  serves_no_read (try_except body E handler rest).
Proof.
  intros Hb Hh Hr s r s' H. unfold try_except in H.
  destruct (body s) as [ra s1] eqn:Ebs.
  destruct (Hb _ _ _ Ebs) as (c1 & H1 & F1).
  destruct ra as [a|e| |];
    try (injection H as <- <-; exists c1; split; assumption).
  - destruct (Hr a _ _ _ H) as (c2 & H2 & F2).
    exact (serves_no_read_join _ _ _ _ _ H1 F1 H2 F2).
  - destruct (E e).
    + destruct (Hh _ _ _ H) as (c2 & H2 & F2).
      exact (serves_no_read_join _ _ _ _ _ H1 F1 H2 F2).
    + injection H as <- <-; exists c1; split; assumption.
Qed.

Lemma serves_no_read_try_except_serial_Timeout {A B} (body : M A)
    (handler : M B) rest :
  serves_no_read body -> serves_no_read handler ->
  (forall a, serves_no_read (rest a)) ->
  serves_no_read (try_except_serial_Timeout body handler rest).
Proof.
  intros Hb Hh Hr s r s' H. unfold try_except_serial_Timeout in H.
  destruct (body s) as [ra s1] eqn:Ebs.
  destruct (Hb _ _ _ Ebs) as (c1 & H1 & F1).
  destruct ra as [a|e| |];
    try (injection H as <- <-; exists c1; split; assumption).
  - destruct (Hr a _ _ _ H) as (c2 & H2 & F2).
    exact (serves_no_read_join _ _ _ _ _ H1 F1 H2 F2).
  - destruct (is_SerialTimeout e).
    + destruct (Hh _ _ _ H) as (c2 & H2 & F2).
      exact (serves_no_read_join _ _ _ _ _ H1 F1 H2 F2).
    + injection H as <- <-; exists c1; split; assumption.
Qed.

Lemma serves_no_read_set_timeout t : serves_no_read (set_timeout t).
Proof. intros s r s' H; no_call H. Qed.

Lemma serves_no_read_uart_read size : serves_no_read (uart_read size).
Proof.
  intros s r s' H. unfold uart_read in H.
  destruct (uart_in s) as [|[received| |] tl];
    [ | | destruct (uart_timeout s) | ]; one_call H.
Qed.

Lemma serves_no_read_unpack2 bs : serves_no_read (unpack2 bs).
Proof.
  intros s r s' H. unfold unpack2, ret, raise in H.
  destruct bs as [|a [|b [|c tl]]]; no_call H.
Qed.

Lemma serves_no_read_unpack_star_last bs : serves_no_read (unpack_star_last bs).
Proof.
  intros s r s' H. unfold unpack_star_last, ret, raise in H.
  destruct bs; no_call H.
Qed.

Lemma serves_no_read_write hi2c address data start stop :
  serves_no_read (FtdiI2C.write hi2c address data start stop).
Proof.
  intros s r s' H.
  unfold FtdiI2C.write, Veneer.write_device, Veneer.wrapped_function,
    Veneer._check_ftdi_status, dll_call, bind, emit, assert, ret, raise in H.
  cbn [dll uart_in uart_timeout trace next_char] in H.
  destruct (dll s) as [|reply tl]; [one_call H|].
  destruct (FT_Status_of_int (status reply)) as [st|]; [|one_call H].
  destruct (is_FT_OK st); [|one_call H].
  destruct (size_transferred reply =? len data); one_call H.
Qed.

Lemma serves_no_read_frame_body hi2c : serves_no_read (frame_body hi2c).
Proof.
  unfold frame_body.
  apply serves_no_read_bind; [apply serves_no_read_set_timeout | intros _].
  apply serves_no_read_try_except_serial_Timeout.
  - unfold address_phase.
    apply serves_no_read_bind; [apply serves_no_read_uart_read | intros bs].
    apply serves_no_read_bind;
      [apply serves_no_read_unpack2 | intros [addr length]].
    destruct (decode_address addr); apply serves_no_read_ret.
  - apply serves_no_read_ret.
  - intros [[write addr] length]. destruct write.
    + apply serves_no_read_try_except_serial_Timeout.
      * unfold write_phase.
        apply serves_no_read_bind; [apply serves_no_read_set_timeout | intros _].
        apply serves_no_read_bind; [apply serves_no_read_uart_read | intros bs].
        apply serves_no_read_bind;
          [apply serves_no_read_unpack_star_last | intros [data c]].
        intros s r s' H; no_call H.
      * apply serves_no_read_ret.
      * intros [data c].
        apply serves_no_read_bind; [apply serves_no_read_write | intros _].
        apply serves_no_read_ret.
    + apply serves_no_read_try_except_serial_Timeout.
      * unfold read_phase.
        apply serves_no_read_bind; [apply serves_no_read_set_timeout | intros _].
        apply serves_no_read_bind; [apply serves_no_read_uart_read | intros c].
        apply serves_no_read_ret.
      * apply serves_no_read_ret.
      * intros next_char_stop.
        (* [FtdiI2C.read] gives [None], which [uart.write] rejects *)
        apply (@serves_no_read_raise ctl TypeError).
Qed.

Lemma serves_no_read_inner_loop hi2c fuel :
  serves_no_read (inner_loop hi2c fuel).
Proof.
  induction fuel as [|fuel IH]; cbn [inner_loop].
  - intros s r s' H; no_call H.
  - apply serves_no_read_bind; [apply serves_no_read_frame_body|].
    intros [|]; [exact IH | apply serves_no_read_ret].
Qed.

Lemma serves_no_read_loop_body hi2c fuel :
  serves_no_read (loop_body hi2c fuel).
Proof.
  unfold loop_body.
  apply serves_no_read_try_except;
    [ | apply serves_no_read_ret | intros _; apply serves_no_read_ret ].
  apply serves_no_read_bind; [apply serves_no_read_set_timeout | intros _].
  apply serves_no_read_bind; [apply serves_no_read_uart_read | intros char].
  destruct (bytes_eqb char [ord_S]); [apply serves_no_read_inner_loop|].
  intros s r s' H. unfold log_control_character, emit in H.
  destruct (next_char s); [one_call H | no_call H].
Qed.

Lemma serves_no_read_main_loop hi2c fuel :
  serves_no_read (main_loop hi2c fuel).
Proof.
  induction fuel as [|fuel IH]; cbn [main_loop].
  - intros s r s' H; no_call H.
  - apply serves_no_read_bind; [apply serves_no_read_loop_body|].
    intros [|]; [exact IH | apply serves_no_read_ret].
Qed.

End NoRead.

(** * Further properties of the veneer *)

(** ** Status values and their messages *)

Lemma FT_Status_of_int_value (status : Z) (st : FT_Status) :
  FT_Status_of_int status = Some st <-> status = FT_Status_value st.
Proof.
  split.
  - unfold FT_Status_of_int.
    destruct (Z.ltb_spec status 0) as [Hneg|Hpos]; [discriminate|].
    assert (Hnat : status = Z.of_nat (Z.to_nat status)) by lia.
    rewrite Hnat at 2. generalize (Z.to_nat status) as n. clear.
    intros n.
    do 19 (destruct n as [|n];
           [intros E; injection E as <-; reflexivity|]).
    destruct n; discriminate.
  - intros ->. destruct st; reflexivity.
Qed.

Lemma FT_Status_of_int_none (status : Z) :
  FT_Status_of_int status = None <-> status < 0 \/ 18 < status.
Proof.
  unfold FT_Status_of_int.
  destruct (Z.ltb_spec status 0) as [Hneg|Hpos].
  - split; [intros _; left; exact Hneg | reflexivity].
  - rewrite nth_error_None. cbn [length FT_Status_members]. lia.
Qed.

Lemma is_FT_OK_value (st : FT_Status) :
  is_FT_OK st = true <-> FT_Status_value st = 0.
Proof. destruct st; simpl; split; intros H; try reflexivity; discriminate. Qed.

(** X1.  [FT_Status(status)] and the member values are inverse to each
    other: a status is accepted exactly when it is the value of a member,
    that member is returned, and the statuses refused are those below 0 or
    above 18. *)
Theorem X1_FT_Status_round_trip (status : Z) (st : FT_Status) :
  (FT_Status_of_int status = Some st <-> status = FT_Status_value st) /\
  FT_Status_of_int (FT_Status_value st) = Some st /\
  (FT_Status_of_int status = None <-> status < 0 \/ 18 < status).
Proof.
  split; [apply FT_Status_of_int_value|].
  split; [apply FT_Status_of_int_value; reflexivity|].
  apply FT_Status_of_int_none.
Qed.

Lemma check_ftdi_status_exception (status : Z) (s : state) :
  Veneer._check_ftdi_status status s =
  (match status_exception status with
   | None => Ret tt
   | Some e => Raise e
   end, s).
Proof.
  unfold Veneer._check_ftdi_status, status_exception.
  destruct (FT_Status_of_int status) as [st|]; [|reflexivity].
  destruct (is_FT_OK st); reflexivity.
Qed.

Lemma status_exception_none (status : Z) :
  status_exception status = None <-> status = 0.
Proof.
  unfold status_exception.
  destruct (FT_Status_of_int status) as [st|] eqn:E.
  - apply FT_Status_of_int_value in E.
    destruct (is_FT_OK st) eqn:Hok.
    + apply is_FT_OK_value in Hok. split; [intros _; lia | reflexivity].
    + split; [discriminate|]. intros H0.
      assert (is_FT_OK st = true) by (apply is_FT_OK_value; lia). congruence.
  - apply FT_Status_of_int_none in E. split; [discriminate | lia].
Qed.

(** X2.  [_check_ftdi_status] changes nothing and returns exactly on status
    0; the statuses 1 to 18 raise [FtdiError] with their member, and a
    status that is no member raises [ValueError], not [FtdiError]. *)
Theorem X2_check_ftdi_status (status : Z) (s : state) :
  snd (Veneer._check_ftdi_status status s) = s /\
  (fst (Veneer._check_ftdi_status status s) = Ret tt <-> status = 0) /\
  (forall st,
     fst (Veneer._check_ftdi_status status s) = Raise (FtdiError st) <->
     status = FT_Status_value st /\ status <> 0) /\
  (fst (Veneer._check_ftdi_status status s) = Raise ValueError <->
   status < 0 \/ 18 < status).
Proof.
  unfold Veneer._check_ftdi_status.
  destruct (FT_Status_of_int status) as [st0|] eqn:E.
  - pose proof (proj1 (FT_Status_of_int_value _ _) E) as Hval.
    assert (Hin : ~ (status < 0 \/ 18 < status)).
    { intros H. apply FT_Status_of_int_none in H. congruence. }
    destruct (is_FT_OK st0) eqn:Hok; cbn [fst snd ret raise].
    + apply is_FT_OK_value in Hok.
      split; [reflexivity|]. split; [split; [intros _; lia | reflexivity]|].
      split; [|split; [discriminate | tauto]].
      intros st; split; [discriminate | intros [_ H]; lia].
    + assert (Hnz : status <> 0).
      { intros H0. assert (is_FT_OK st0 = true) by (apply is_FT_OK_value; lia).
        congruence. }
      split; [reflexivity|]. split; [split; [discriminate | tauto]|].
      split; [|split; [discriminate | tauto]].
      intros st; split.
      * intros H; injection H as <-. split; assumption.
      * intros [Hst _]. f_equal. f_equal.
        apply FT_Status_of_int_value in Hst. congruence.
  - pose proof (proj1 (FT_Status_of_int_none _) E) as Hout.
    cbn [fst snd raise].
    split; [reflexivity|]. split; [split; [discriminate | lia]|].
    split; [|tauto].
    intros st; split; [discriminate|].
    intros [Hst _]. apply FT_Status_of_int_value in Hst. congruence.
Qed.

Section StatusMessages.

Import Stdlib.Strings.String.
Local Open Scope string_scope.

(** X3.  The messages of [FtdiError], one per status in the order of the
    values 0 to 18: the member name without its [FT_] prefix, with spaces
    for underscores, in title case.  No two statuses share a message. *)
Theorem X3_status_messages :
  map StatusText.__str__ FT_Status_members =
  [ "Ok"; "Invalid Handle"; "Device Not Found"; "Device Not Opened";
    "Io Error"; "Insufficient Resources"; "Invalid Parameter";
    "Invalid Baud Rate"; "Device Not Opened For Erase";
    "Device Not Opened For Write"; "Failed To Write Device";
    "Eeprom Read Failed"; "Eeprom Write Failed"; "Eeprom Erase Failed";
    "Eeprom Not Present"; "Eeprom Not Programmed"; "Invalid Args";
    "Not Supported"; "Other Error" ]%list /\
  NoDup (map StatusText.__str__ FT_Status_members).
Proof.
  split; [reflexivity|].
  pose proof (NoDup_nodup string_dec
                (map StatusText.__str__ FT_Status_members)) as H.
  assert (E : nodup string_dec (map StatusText.__str__ FT_Status_members) =
              map StatusText.__str__ FT_Status_members)
    by (vm_compute; reflexivity).
  rewrite E in H. exact H.
Qed.

End StatusMessages.

(** ** The options word of a transfer *)

(** X4.  The options word of a transfer can be read back: bit 0 is the
    start flag, bit 1 the stop flag, bit 4 is set for a write and clear for
    a read, so the word of a write is that of the read plus 16; the word
    fits the [c_uint32] it is passed as. *)
Theorem X4_transfer_options_bits (start stop : bool) :
  Z.testbit (Veneer.transfer_options start stop 1) 0 = start /\
  Z.testbit (Veneer.transfer_options start stop 1) 1 = stop /\
  Z.testbit (Veneer.transfer_options start stop 1) 4 = true /\
  Z.testbit (Veneer.transfer_options start stop 0) 0 = start /\
  Z.testbit (Veneer.transfer_options start stop 0) 1 = stop /\
  Z.testbit (Veneer.transfer_options start stop 0) 4 = false /\
  Veneer.transfer_options start stop 1 =
    Veneer.transfer_options start stop 0 + 16 /\
  Veneer.c_uint32 (Veneer.transfer_options start stop 0) =
    Veneer.transfer_options start stop 0 /\
  Veneer.transfer_options start stop 0 = Z.b2z start + 2 * Z.b2z stop.
Proof. destruct start, stop; repeat split; reflexivity. Qed.

(** ** One transfer *)

Lemma write_outcome_ok (reply : dll_reply) (size : Z) :
  write_outcome reply size = Ret tt <->
  status reply = 0 /\ size_transferred reply = size.
Proof.
  unfold write_outcome.
  destruct (FT_Status_of_int (status reply)) as [st|] eqn:E.
  - apply FT_Status_of_int_value in E.
    destruct (is_FT_OK st) eqn:Hok.
    + apply is_FT_OK_value in Hok.
      destruct (Z.eqb_spec (size_transferred reply) size) as [Hsz|Hsz].
      * split; [intros _; split; [lia | exact Hsz] | reflexivity].
      * split; [discriminate | intros [_ H]; contradiction].
    + split; [discriminate|]. intros [H0 _].
      assert (is_FT_OK st = true) by (apply is_FT_OK_value; lia). congruence.
  - apply FT_Status_of_int_none in E. split; [discriminate | lia].
Qed.

(** X5.  [write_device] makes one [I2C_DeviceWrite] call, with the payload,
    its length and the write bit, takes one answer and touches nothing
    else.  It returns exactly when libmpsse answers [FT_OK] and reports the
    whole payload transferred; [FT_OK] with another count is an
    [AssertionError]. *)
Theorem X5_write_device_outcome
    handle address data start stop s reply replies :
  dll s = reply :: replies ->
  snd (Veneer.write_device handle address data start stop s) =
    mk_state (uart_in s) (uart_timeout s) replies
      (trace s ++ [I2C_DeviceWrite handle address (len data) data
                     (Veneer.transfer_options start stop 1)])
      (next_char s) /\
  (fst (Veneer.write_device handle address data start stop s) = Ret tt <->
   status reply = 0 /\ size_transferred reply = len data) /\
  (status reply = 0 -> size_transferred reply <> len data ->
   fst (Veneer.write_device handle address data start stop s) =
     Raise AssertionError).
Proof.
  intros Hdll.
  rewrite (write_device_answered handle address data start stop s
             reply replies Hdll).
  cbn [fst snd].
  split; [reflexivity|].
  split; [apply write_outcome_ok|].
  intros Hst Hsz. unfold write_outcome. rewrite Hst. cbn.
  destruct (Z.eqb_spec (size_transferred reply) (len data));
    [contradiction | reflexivity].
Qed.

(** X5 at a write of two bytes of which libmpsse reports one transferred. *)
Lemma X5_write_device_witness :
  snd (Veneer.write_device 7 42 [1; 2] true true
         (initial [] [mk_reply 0 1 []])) =
    mk_state [] Forever []
      [I2C_DeviceWrite 7 42 2 [1; 2] (Veneer.transfer_options true true 1)]
      None /\
  (fst (Veneer.write_device 7 42 [1; 2] true true
          (initial [] [mk_reply 0 1 []])) = Ret tt <->
   0 = 0 /\ 1 = len [1; 2]) /\
  (0 = 0 -> 1 <> len [1; 2] ->
   fst (Veneer.write_device 7 42 [1; 2] true true
          (initial [] [mk_reply 0 1 []])) = Raise AssertionError).
Proof.
  exact (X5_write_device_outcome 7 42 [1; 2] true true
           (initial [] [mk_reply 0 1 []]) (mk_reply 0 1 []) [] eq_refl).
Defined.

(** X6.  A count for which [bytes(bytes_to_read)] raises is refused before
    anything is asked of libmpsse: no call is made and no answer taken.
    The exception is [ValueError] for a negative count that fits
    [Py_ssize_t], that is from [- 2 ^ 63] on, [OverflowError] below that
    and above what a bytes object can hold, and [MemoryError] for a count
    beyond what the allocator grants. *)
Theorem X6_read_device_refused_count
    memory handle address bytes_to_read start stop s :
  bytes_to_read < 0 \/ memory < bytes_to_read \/
  Veneer.PY_SSIZE_T_MAX - Veneer.PyBytesObject_SIZE < bytes_to_read ->
  Veneer.read_device memory handle address bytes_to_read start stop s =
  (Raise (if bytes_to_read <? - 2 ^ 63 then OverflowError
          else if bytes_to_read <? 0 then ValueError
          else if 2 ^ 63 - 34 <? bytes_to_read then OverflowError
          else MemoryError), s).
Proof.
  intros Hrefused.
  unfold Veneer.read_device, Veneer.bytes_of_count, bind, raise.
  change (- Veneer.PY_SSIZE_T_MAX - 1) with (- 2 ^ 63).
  change (Veneer.PY_SSIZE_T_MAX - Veneer.PyBytesObject_SIZE) with (2 ^ 63 - 34)
    in *.
  destruct (bytes_to_read <? - 2 ^ 63); [reflexivity|].
  destruct (Z.ltb_spec bytes_to_read 0); [reflexivity|].
  destruct (Z.ltb_spec (2 ^ 63 - 34) bytes_to_read); [reflexivity|].
  destruct (Z.ltb_spec memory bytes_to_read); [reflexivity | lia].
Qed.

(** X6 at the count [-1]. *)
Lemma X6_read_device_refused_witness :
  Veneer.read_device (2 ^ 30) 7 42 (-1) true true (initial [] [replied_ok 0]) =
  (Raise ValueError, initial [] [replied_ok 0]).
Proof.
  exact (X6_read_device_refused_count (2 ^ 30) 7 42 (-1) true true
           (initial [] [replied_ok 0]) (or_introl eq_refl)).
Defined.

(** [read_device] at counts refused for each of the other reasons. *)
Lemma read_device_refused_examples :
  Veneer.read_device (2 ^ 30) 7 42 (- 2 ^ 63 - 1) true true
    (initial [] [replied_ok 0]) =
  (Raise OverflowError, initial [] [replied_ok 0]) /\
  Veneer.read_device (2 ^ 30) 7 42 (2 ^ 63 - 1) true true
    (initial [] [replied_ok 0]) =
  (Raise OverflowError, initial [] [replied_ok 0]) /\
  Veneer.read_device (2 ^ 30) 7 42 (2 ^ 40) true true
    (initial [] [replied_ok 0]) =
  (Raise MemoryError, initial [] [replied_ok 0]).
Proof. repeat split; reflexivity. Qed.

(** X7.  For a count that is not negative and for which
    [bytes(bytes_to_read)] is allocated, that is a count within what a
    bytes object can hold and within [memory], [read_device] makes one
    [I2C_DeviceRead] call, with the count and the options of a read, and
    takes one answer.  It returns exactly when libmpsse answers [FT_OK] and
    reports that count transferred; [FT_OK] with another count is an
    [AssertionError], and the bytes received are dropped. *)
Theorem X7_read_device_outcome
    memory handle address bytes_to_read start stop s reply replies :
  0 <= bytes_to_read ->
  bytes_to_read <= Veneer.PY_SSIZE_T_MAX - Veneer.PyBytesObject_SIZE ->
  bytes_to_read <= memory ->
  dll s = reply :: replies ->
  snd (Veneer.read_device memory handle address bytes_to_read start stop s) =
    mk_state (uart_in s) (uart_timeout s) replies
      (trace s ++ [I2C_DeviceRead handle address bytes_to_read
                     (Veneer.transfer_options start stop 0)])
      (next_char s) /\
  ((exists result,
      fst (Veneer.read_device memory handle address bytes_to_read start stop s) =
        Ret result) <->
   status reply = 0 /\ size_transferred reply = bytes_to_read) /\
  (status reply = 0 -> size_transferred reply <> bytes_to_read ->
   fst (Veneer.read_device memory handle address bytes_to_read start stop s) =
     Raise AssertionError).
Proof.
  intros Hn Hfits Hmem Hdll.
  assert (Hopt : Veneer.c_uint32 (Veneer.transfer_options start stop 0) =
                 Veneer.transfer_options start stop 0)
    by (destruct start, stop; reflexivity).
  assert (Hlow : (bytes_to_read <? - Veneer.PY_SSIZE_T_MAX - 1) = false)
    by (apply Z.ltb_ge; unfold Veneer.PY_SSIZE_T_MAX; lia).
  assert (Hneg : (bytes_to_read <? 0) = false) by (apply Z.ltb_ge; lia).
  assert (Hbig : (Veneer.PY_SSIZE_T_MAX - Veneer.PyBytesObject_SIZE
                  <? bytes_to_read) = false) by (apply Z.ltb_ge; lia).
  assert (Hgranted : (memory <? bytes_to_read) = false)
    by (apply Z.ltb_ge; lia).
  unfold Veneer.read_device, Veneer.bytes_of_count, Veneer.wrapped_function,
    dll_call, bind, emit, assert, ret, raise.
  rewrite Hlow, Hneg, Hbig, Hgranted.
  cbn [dll uart_in uart_timeout trace next_char].
  rewrite Hdll, Hopt, check_ftdi_status_exception.
  destruct (status_exception (status reply)) as [e|] eqn:Hexc.
  - assert (Hnz : status reply <> 0).
    { intros H0. apply status_exception_none in H0. congruence. }
    cbn [fst snd]. split; [reflexivity|].
    split; [|intros H0; contradiction].
    split; [intros [result H]; discriminate H | intros [H0 _]; contradiction].
  - apply status_exception_none in Hexc.
    destruct (Z.eqb_spec (size_transferred reply) bytes_to_read) as [Hsz|Hsz];
      cbn [fst snd]; (split; [reflexivity|]).
    + split; [|intros _ H; contradiction].
      split; [intros _; split; assumption | intros _; eexists; reflexivity].
    + split; [|intros _ _; reflexivity].
      split; [intros [result H]; discriminate H | intros [_ H]; contradiction].
Qed.

(** X7 at a read of three bytes of which libmpsse reports two. *)
Lemma X7_read_device_witness :
  snd (Veneer.read_device (2 ^ 30) 7 42 3 true false
         (initial [] [mk_reply 0 2 [9; 8]])) =
    mk_state [] Forever []
      [I2C_DeviceRead 7 42 3 (Veneer.transfer_options true false 0)] None /\
  ((exists result,
      fst (Veneer.read_device (2 ^ 30) 7 42 3 true false
             (initial [] [mk_reply 0 2 [9; 8]])) = Ret result) <->
   0 = 0 /\ 2 = 3) /\
  (0 = 0 -> 2 <> 3 ->
   fst (Veneer.read_device (2 ^ 30) 7 42 3 true false
          (initial [] [mk_reply 0 2 [9; 8]])) = Raise AssertionError).
Proof.
  exact (X7_read_device_outcome (2 ^ 30) 7 42 3 true false
           (initial [] [mk_reply 0 2 [9; 8]]) (mk_reply 0 2 [9; 8]) []
           ltac:(lia) ltac:(vm_compute; discriminate) ltac:(lia) eq_refl).
Defined.

(** * Further properties of the loop *)

(** ** Reads that return too little *)

(** A pass that receives the two header bytes goes on to the payload read,
    whatever the address byte. *)
Lemma frame_body_header hi2c a l tl t replies calls c :
  frame_body hi2c (mk_state (Rx [a; l] :: tl) t replies calls c) =
  try_except_serial_Timeout (write_phase l) (ret Break)
    (fun '(data, c') =>
       FtdiI2C.write hi2c (a / 2) data true (c' =? ord_S) ;;
       ret (if c' =? ord_S then Break else Continue))
    (mk_state tl Seconds_0_7 replies
       (calls ++ [uart_read_call Seconds_0_7 2]) c).
Proof.
  unfold frame_body, try_except_serial_Timeout at 1, address_phase, bind,
    set_timeout, uart_read, unpack2, ret.
  cbn [dll uart_in uart_timeout trace next_char].
  rewrite decode_address_eq. reflexivity.
Qed.

(** X8.  When the header read returns anything but two bytes, as it does
    on pyserial when the wait times out, the unpacking of line 90 raises
    [ValueError] inside the [try] of line 89.  The exception reaches the
    clause [except serial.Timeout], which names no exception class, and
    Python raises [TypeError] there; [except KeyboardInterrupt] does not
    catch it, so the loop ends with [TypeError], having made no libmpsse
    call. *)
Theorem X8_header_of_wrong_size hi2c fuel bs rest t replies calls c :
  length bs <> 2%nat ->
  main_loop hi2c (S (S fuel))
    (mk_state (Rx [ord_S] :: Rx bs :: rest) t replies calls c) =
  (Raise TypeError,
   mk_state rest Seconds_0_7 replies
     (calls ++ [uart_read_call Forever 1; uart_read_call Seconds_0_7 2]) c).
Proof.
  intros Hlen.
  destruct bs as [|a [|b [|b' tl]]]; try (exfalso; apply Hlen; reflexivity);
    cbn; rewrite <- app_assoc; reflexivity.
Qed.

(** X8 at a header read that returns no byte. *)
Lemma X8_header_witness :
  main_loop 7 2 (initial [Rx [ord_S]; Rx []] []) =
  (Raise TypeError,
   mk_state [] Seconds_0_7 []
     [uart_read_call Forever 1; uart_read_call Seconds_0_7 2] None).
Proof.
  exact (X8_header_of_wrong_size 7 0 [] [] Forever [] [] None
           ltac:(discriminate)).
Defined.

(** X9.  When the read of payload and closing character returns no byte at
    all, as it does on pyserial when nothing arrives in time, the
    unpacking of line 102 raises [ValueError] inside the [try] of line 100;
    the clause [except serial.Timeout] turns it into [TypeError] and the
    loop ends with it: no libmpsse call is made and [next_char] keeps its
    value. *)
Theorem X9_empty_payload_read hi2c fuel a l rest t replies calls c :
  main_loop hi2c (S (S fuel))
    (mk_state (Rx [ord_S] :: Rx [a; l] :: Rx [] :: rest) t replies calls c) =
  (Raise TypeError,
   mk_state rest Seconds_0_7 replies
     (calls ++ [uart_read_call Forever 1; uart_read_call Seconds_0_7 2;
                uart_read_call Seconds_0_7 (l + 1)]) c).
Proof.
  cbn [main_loop]. unfold bind at 1.
  erewrite loop_body_start by reflexivity.
  unfold try_except at 1. cbn [inner_loop]. unfold bind at 1.
  cbn [dll uart_in uart_timeout trace next_char].
  rewrite frame_body_header. cbn.
  rewrite <- !app_assoc. reflexivity.
Qed.

(** X10.  The number of bytes that the read of payload and closing
    character returns is not compared with the length byte.  Whenever that
    read returns at least one byte, be it the [length + 1] asked for or
    fewer because the wait timed out, the pass writes all of them but the
    last to the device and takes the last one as the closing character: a
    frame cut short goes out as a shorter write. *)
Theorem X10_short_payload_is_written hi2c s a l bs rest :
  uart_in s = Rx [a; l] :: Rx bs :: rest ->
  bs <> [] ->
  exists r s',
    frame_body hi2c s = (r, s') /\
    next_char s' = Some (last bs 0) /\
    trace s' =
      trace s ++
      [uart_read_call Seconds_0_7 2;
       uart_read_call Seconds_0_7 (l + 1);
       I2C_DeviceWrite hi2c (a / 2) (len bs - 1) (removelast bs)
         (Veneer.transfer_options true (last bs 0 =? ord_S) 1)].
Proof.
  intros Hin Hne.
  assert (Hsize : len (removelast bs) = len bs - 1).
  { destruct (exists_last Hne) as [init [c ->]].
    rewrite removelast_last. unfold len. rewrite length_app. simpl. lia. }
  rewrite (frame_body_write hi2c s a l bs rest Hin Hne).
  unfold bind, FtdiI2C.write.
  destruct (dll s) as [|reply replies] eqn:Hdll.
  - rewrite write_device_unanswered by reflexivity.
    cbn [trace next_char]. rewrite Hsize.
    eexists; eexists; split; [reflexivity|].
    cbn [trace next_char]. rewrite <- app_assoc. split; reflexivity.
  - erewrite write_device_answered by reflexivity.
    cbn [trace next_char]. rewrite Hsize.
    destruct (write_outcome reply (len bs - 1));
      (eexists; eexists; split; [reflexivity|]);
      cbn [trace next_char]; rewrite <- app_assoc; split; reflexivity.
Qed.

(** X10 at a frame that announces five payload bytes, of which two arrive
    before the wait times out. *)
Lemma X10_short_payload_witness :
  exists r s',
    frame_body 7 (initial [Rx [84; 5]; Rx [17; 34]] [replied_ok 1]) = (r, s') /\
    next_char s' = Some 34 /\
    trace s' =
      [uart_read_call Seconds_0_7 2;
       uart_read_call Seconds_0_7 6;
       I2C_DeviceWrite 7 42 1 [17] (Veneer.transfer_options true false 1)].
Proof.
  exact (X10_short_payload_is_written 7
           (initial [Rx [84; 5]; Rx [17; 34]] [replied_ok 1])
           84 5 [17; 34] [] eq_refl ltac:(discriminate)).
Defined.

(** ** The calls of the loop *)

Section WellFormedCalls.

Variable hi2c : Z.

Lemma byte_ok_removelast (bs : list Z) :
  forallb byte_ok bs = true -> forallb byte_ok (removelast bs) = true.
Proof.
  induction bs as [|b tl IH]; [reflexivity|].
  cbn [forallb]. intros H. apply andb_prop in H as [Hb Htl].
  destruct tl as [|b' tl']; [reflexivity|].
  change (removelast (b :: b' :: tl')) with (b :: removelast (b' :: tl')).
  cbn [forallb]. rewrite Hb, (IH Htl). reflexivity.
Qed.

Lemma well_formed_write (a : Z) (data : list Z) (stop : bool) :
  byte_ok a = true -> forallb byte_ok data = true ->
  well_formed_call hi2c
    (I2C_DeviceWrite hi2c (a / 2) (len data) data
       (Veneer.transfer_options true stop 1)) = true.
Proof.
  unfold byte_ok at 1. intros Ha Hdata.
  apply andb_prop in Ha as [Ha0 Ha1].
  apply Z.leb_le in Ha0. apply Z.ltb_lt in Ha1.
  unfold well_formed_call.
  rewrite Z.eqb_refl, Z.eqb_refl, Hdata.
  assert (H0 : (0 <=? a / 2) = true)
    by (apply Z.leb_le, Z.div_pos; lia).
  assert (H1 : (a / 2 <? 128) = true)
    by (apply Z.ltb_lt, Z.div_lt_upper_bound; lia).
  rewrite H0, H1. destruct stop; reflexivity.
Qed.

Local Ltac calls_are H l :=
  injection H as <- <-; cbn [trace]; exists l;
  split; [rewrite <- ?app_assoc; reflexivity | reflexivity].

Lemma frame_body_calls : keeps_calls_well_formed hi2c (frame_body hi2c).
Proof.
  intros [u t d tr nc] r s' H Hok. cbn [uart_in trace] in *.
  destruct u as [|[bs| |] tl].
  - cbn in H. calls_are H [uart_read_call Seconds_0_7 2].
  - cbn [forallb rx_ok] in Hok. apply andb_prop in Hok as [Hbs Htl].
    destruct bs as [|a [|l [|x bs']]];
      try (cbn in H; calls_are H [uart_read_call Seconds_0_7 2]).
    rewrite frame_body_header in H.
    cbn [forallb] in Hbs. apply andb_prop in Hbs as [Ha _].
    unfold try_except_serial_Timeout, write_phase, bind, set_timeout,
      uart_read in H.
    cbn [dll uart_in uart_timeout trace next_char] in H.
    destruct tl as [|[bs2| |] tl2].
    + calls_are H [uart_read_call Seconds_0_7 2;
                   uart_read_call Seconds_0_7 (l + 1)].
    + cbn [forallb rx_ok] in Htl. apply andb_prop in Htl as [Hbs2 _].
      destruct bs2 as [|b bs2'].
      * cbn in H.
        calls_are H [uart_read_call Seconds_0_7 2;
                     uart_read_call Seconds_0_7 (l + 1)].
      * unfold unpack_star_last, ret in H.
        cbn [is_SerialTimeout] in H. unfold FtdiI2C.write in H.
        pose proof (well_formed_write a (removelast (b :: bs2'))
                      (last (b :: bs2') 0 =? ord_S) Ha
                      (byte_ok_removelast _ Hbs2)) as Hw.
        set (w := I2C_DeviceWrite hi2c (a / 2)
                    (len (removelast (b :: bs2'))) (removelast (b :: bs2'))
                    (Veneer.transfer_options true
                       (last (b :: bs2') 0 =? ord_S) 1)) in *.
        assert (Hcalls : forallb (well_formed_call hi2c)
                  [uart_read_call Seconds_0_7 2;
                   uart_read_call Seconds_0_7 (l + 1); w] = true)
          by (cbn [forallb]; rewrite Hw; reflexivity).
        destruct d as [|reply replies].
        -- rewrite write_device_unanswered in H by reflexivity.
           injection H as <- <-. cbn [trace].
           eexists. split; [rewrite <- !app_assoc; reflexivity | exact Hcalls].
        -- erewrite write_device_answered in H by reflexivity.
           destruct (write_outcome reply (len (removelast (b :: bs2'))))
             as [[]|e| |]; injection H as <- <-; cbn [trace];
             (eexists; split;
              [rewrite <- !app_assoc; reflexivity | exact Hcalls]).
    + cbn in H.
      calls_are H [uart_read_call Seconds_0_7 2;
                   uart_read_call Seconds_0_7 (l + 1)].
    + cbn in H.
      calls_are H [uart_read_call Seconds_0_7 2;
                   uart_read_call Seconds_0_7 (l + 1)].
  - cbn in H. calls_are H [uart_read_call Seconds_0_7 2].
  - cbn in H. calls_are H [uart_read_call Seconds_0_7 2].
Qed.

(** What is left of a script of bytes is a script of bytes. *)
Lemma rx_ok_rest (s s' : state) (taken : list rx) :
  uart_in s = taken ++ uart_in s' ->
  forallb rx_ok (uart_in s) = true -> forallb rx_ok (uart_in s') = true.
Proof.
  intros -> H. rewrite forallb_app in H.
  apply andb_prop in H as [_ H]. exact H.
Qed.

Lemma calls_join (s s1 s' : state) (c1 c2 : list event) :
  trace s1 = trace s ++ c1 ->
  forallb (well_formed_call hi2c) c1 = true ->
  trace s' = trace s1 ++ c2 ->
  forallb (well_formed_call hi2c) c2 = true ->
  exists calls,
    trace s' = trace s ++ calls /\
    forallb (well_formed_call hi2c) calls = true.
Proof.
  intros H1 F1 H2 F2. exists (c1 ++ c2). split.
  - rewrite H2, H1, app_assoc. reflexivity.
  - rewrite forallb_app, F1, F2. reflexivity.
Qed.

Lemma inner_loop_calls fuel : keeps_calls_well_formed hi2c (inner_loop hi2c fuel).
Proof.
  induction fuel as [|fuel IH]; intros s r s' H Hok; cbn [inner_loop] in H.
  - injection H as <- <-. exists []. split; [symmetry; apply app_nil_r | reflexivity].
  - unfold bind in H.
    destruct (frame_body hi2c s) as [rc s1] eqn:Ebody.
    destruct (frame_body_calls _ _ _ Ebody Hok) as (c1 & H1 & F1).
    destruct (takes_script_frame_body hi2c _ _ _ Ebody) as (t1 & Ht1 & _).
    destruct rc as [[|]|e| |];
      try (injection H as <- <-; exists c1; split; assumption).
    destruct (IH _ _ _ H (rx_ok_rest _ _ _ Ht1 Hok)) as (c2 & H2 & F2).
    exact (calls_join _ _ _ _ _ H1 F1 H2 F2).
Qed.

Lemma loop_body_calls fuel : keeps_calls_well_formed hi2c (loop_body hi2c fuel).
Proof.
  intros [u t d tr nc] r s' H Hok. cbn [uart_in trace] in *.
  unfold loop_body, try_except in H.
  unfold bind at 1, set_timeout at 1 in H.
  unfold bind at 1, uart_read at 1 in H.
  cbn [dll uart_in uart_timeout trace next_char] in H.
  destruct u as [|[received| |] tl].
  - calls_are H [uart_read_call Forever 1].
  - cbn [forallb] in Hok. apply andb_prop in Hok as [_ Htl].
    destruct (bytes_eqb received [ord_S]).
    + match type of H with
      | context [inner_loop hi2c fuel ?st] =>
          destruct (inner_loop hi2c fuel st) as [ri si] eqn:Einner;
          destruct (inner_loop_calls fuel st ri si Einner Htl)
            as (c2 & H2 & F2)
      end.
      cbn [trace] in H2.
      assert (Hsi : exists calls,
                trace si = tr ++ calls /\
                forallb (well_formed_call hi2c) calls = true).
      { exists (uart_read_call Forever 1 :: c2). split.
        - rewrite H2, <- app_assoc. reflexivity.
        - cbn [forallb well_formed_call]. rewrite F2. reflexivity. }
      destruct ri as [[]|e| |]; [| destruct (is_KeyboardInterrupt e) | |];
        injection H as <- <-; exact Hsi.
    + unfold log_control_character in H. cbn [next_char] in H.
      destruct nc as [k|]; cbn in H.
      * calls_are H [uart_read_call Forever 1; logger_debug k].
      * calls_are H [uart_read_call Forever 1].
  - calls_are H [uart_read_call Forever 1].
  - cbn in H. calls_are H [uart_read_call Forever 1].
Qed.

Lemma main_loop_calls fuel : keeps_calls_well_formed hi2c (main_loop hi2c fuel).
Proof.
  induction fuel as [|fuel IH]; intros s r s' H Hok; cbn [main_loop] in H.
  - injection H as <- <-. exists []. split; [symmetry; apply app_nil_r | reflexivity].
  - unfold bind in H.
    destruct (loop_body hi2c fuel s) as [rc s1] eqn:Ebody.
    destruct (loop_body_calls _ _ _ _ Ebody Hok) as (c1 & H1 & F1).
    destruct (loop_body_outcome _ _ _ _ _ Ebody) as (_ & [t1 Ht1] & _).
    destruct rc as [[|]|e| |];
      try (injection H as <- <-; exists c1; split; assumption).
    destruct (IH _ _ _ H (rx_ok_rest _ _ _ Ht1 Hok)) as (c2 & H2 & F2).
    exact (calls_join _ _ _ _ _ H1 F1 H2 F2).
Qed.

End WellFormedCalls.

(** ** The reads of the loop *)

Section ReadsOfTheLoop.

Variable hi2c : Z.

Local Ltac calls_are H l :=
  injection H as <- <-; cbn [trace]; exists l;
  split; [rewrite <- ?app_assoc; reflexivity | reflexivity].




End ReadsOfTheLoop.



(** X12.  On a serial port that delivers bytes, every [I2C_DeviceWrite] the
    loop makes is made on the handle of the engine, to a 7-bit address,
    with a buffer of bytes whose length is the size passed, and with
    options 17 or 19: start bit and write bit set, stop bit either way. *)
Theorem X12_writes_of_the_loop hi2c fuel s r s' :
  main_loop hi2c fuel s = (r, s') ->
  forallb rx_ok (uart_in s) = true ->
  exists calls,
    trace s' = trace s ++ calls /\
    forall handle address size buffer options,
      In (I2C_DeviceWrite handle address size buffer options) calls ->
      handle = hi2c /\ 0 <= address < 128 /\ size = len buffer /\
      Forall (fun b => 0 <= b < 256) buffer /\
      (options = 17 \/ options = 19).
Proof.
  intros H Hok.
  destruct (main_loop_calls hi2c fuel s r s' H Hok) as (calls & Htr & Hall).
  exists calls. split; [exact Htr|].
  intros handle address size buffer options Hin.
  rewrite forallb_forall in Hall. specialize (Hall _ Hin).
  cbn [well_formed_call] in Hall.
  repeat (apply andb_prop in Hall as [Hall ?]).
  apply Z.eqb_eq in Hall.
  repeat match goal with
         | H : (_ =? _) = true |- _ => apply Z.eqb_eq in H
         | H : (_ <=? _) = true |- _ => apply Z.leb_le in H
         | H : (_ <? _) = true |- _ => apply Z.ltb_lt in H
         end.
  split; [assumption|]. split; [lia|]. split; [assumption|]. split.
  - apply Forall_forall. intros b Hb.
    match goal with
    | Hbytes : forallb byte_ok buffer = true |- _ =>
        rewrite forallb_forall in Hbytes;
        pose proof (Hbytes _ Hb) as Hbyte
    end.
    apply andb_prop in Hbyte as [Hlow Hhigh].
    apply Z.leb_le in Hlow. apply Z.ltb_lt in Hhigh. lia.
  - match goal with
    | Hopt : (_ || _) = true |- _ =>
        apply orb_prop in Hopt as [Hopt|Hopt];
        apply Z.eqb_eq in Hopt; [left | right]; exact Hopt
    end.
Qed.

(** X12 on scenario A. *)
Lemma X12_writes_witness :
  exists calls,
    [uart_read_call Forever 1; uart_read_call Seconds_0_7 2;
     uart_read_call Seconds_0_7 3;
     I2C_DeviceWrite 7 42 2 [0; 0] (Veneer.transfer_options true true 1);
     uart_read_call Forever 1] = [] ++ calls /\
    forall handle address size buffer options,
      In (I2C_DeviceWrite handle address size buffer options) calls ->
      handle = 7 /\ 0 <= address < 128 /\ size = len buffer /\
      Forall (fun b => 0 <= b < 256) buffer /\
      (options = 17 \/ options = 19).
Proof.
  exact (X12_writes_of_the_loop 7 5 scenario_A Blocked
           (mk_state [] Forever []
              [uart_read_call Forever 1; uart_read_call Seconds_0_7 2;
               uart_read_call Seconds_0_7 3;
               I2C_DeviceWrite 7 42 2 [0; 0]
                 (Veneer.transfer_options true true 1);
               uart_read_call Forever 1]
              (Some 83))
           eq_refl eq_refl).
Defined.

(** X13.  Every pass of the inner and of the outer loop takes at least one
    outcome from the serial port.  So over [n] outcomes the loop makes at
    most [n] passes before it ends or is left waiting: a budget above [n]
    is never used up and every such budget gives the same run. *)
Theorem X13_passes_bounded_by_the_input hi2c fuel s :
  (length (uart_in s) < fuel)%nat ->
  fst (main_loop hi2c fuel s) <> OutOfFuel /\
  forall fuel', (fuel <= fuel')%nat ->
    main_loop hi2c fuel' s = main_loop hi2c fuel s.
Proof.
  intros Hlen.
  destruct (main_loop hi2c fuel s) as [r s'] eqn:Erun.
  pose proof (main_loop_budget hi2c fuel s r s' Hlen Erun) as Hr.
  split; [exact Hr|].
  intros fuel' Hle.
  exact (main_loop_more_budget hi2c fuel fuel' s r s' Hle Erun Hr).
Qed.

(** X13 on scenario A, three outcomes long. *)
Lemma X13_passes_witness :
  fst (main_loop 7 4 scenario_A) <> OutOfFuel /\
  forall fuel', (4 <= fuel')%nat ->
    main_loop 7 fuel' scenario_A = main_loop 7 4 scenario_A.
Proof.
  exact (X13_passes_bounded_by_the_input 7 4 scenario_A
           ltac:(cbn; lia)).
Defined.

(** * Finding and opening a channel *)

Section ChannelCalls.

Variable utf8 : list Z -> option (list Z).

Lemma wrapped_function_accepts call a tl calls :
  Channels.ans_status a = 0 ->
  Channels.wrapped_function call (Channels.mk_world (a :: tl) calls) =
  (Ret a, Channels.mk_world tl (calls ++ [call])).
Proof.
  intros Hst. unfold Channels.wrapped_function. cbn.
  rewrite (proj2 (status_exception_none _) Hst). reflexivity.
Qed.

Lemma wrapped_function_refuses call a tl calls e :
  status_exception (Channels.ans_status a) = Some e ->
  Channels.wrapped_function call (Channels.mk_world (a :: tl) calls) =
  (Raise e, Channels.mk_world tl (calls ++ [call])).
Proof.
  intros Hst. unfold Channels.wrapped_function. cbn.
  rewrite Hst. reflexivity.
Qed.

Lemma c_uint32_small (v : Z) : 0 <= v < 2 ^ 32 -> Veneer.c_uint32 v = v.
Proof. intros H. unfold Veneer.c_uint32. apply Z.mod_small. exact H. Qed.

Lemma c_uint32_range (v : Z) : 0 <= Veneer.c_uint32 v < 2 ^ 32.
Proof. unfold Veneer.c_uint32. apply Z.mod_pos_bound. lia. Qed.

Lemma info_calls_S (c : Z) (count : nat) :
  info_calls c (S count) =
  Channels.I2C_GetChannelInfo c :: info_calls (c + 1) count.
Proof.
  unfold info_calls. cbn [seq map]. rewrite Z.add_0_r. f_equal.
  rewrite <- seq_shift, map_map. apply map_ext. intros i.
  f_equal. lia.
Qed.

Lemma get_channels_from_S (c : Z) (count : nat) results :
  Channels.get_channels_from utf8 c (S count) results =
  Channels.wbind (Channels.get_channel_info utf8 c) (fun info =>
  Channels.get_channels_from utf8 (c + 1) count (results ++ [info])).
Proof. reflexivity. Qed.

Lemma get_channels_from_all : forall good infos c results tl calls,
  Forall2 (answers_with utf8) good infos ->
  0 <= c -> c + Z.of_nat (length good) <= 2 ^ 32 ->
  Channels.get_channels_from utf8 c (length good) results
    (Channels.mk_world (good ++ tl) calls) =
  (Ret (results ++ infos),
   Channels.mk_world tl (calls ++ info_calls c (length good))).
Proof.
  induction good as [|a good IH]; intros infos c results tl calls Hall Hc Hmax.
  - inversion Hall; subst. cbn. rewrite !app_nil_r. reflexivity.
  - inversion Hall as [|a' info good' infos' [Hst Hconv] Hrest]; subst.
    cbn [length] in *. cbn [Channels.get_channels_from].
    unfold Channels.wbind at 1, Channels.get_channel_info.
    unfold Channels.wbind at 1.
    rewrite c_uint32_small by lia.
    change ((a :: good) ++ tl) with (a :: (good ++ tl)).
    rewrite (wrapped_function_accepts _ a _ _ Hst), Hconv.
    rewrite (IH infos' (c + 1) (results ++ [info]) tl _ Hrest) by lia.
    rewrite info_calls_S, <- !app_assoc. reflexivity.
Qed.

Lemma get_channels_from_refused : forall good infos c results bad tl calls e,
  Forall2 (answers_with utf8) good infos ->
  status_exception (Channels.ans_status bad) = Some e ->
  forall more,
  0 <= c -> c + Z.of_nat (length good) < 2 ^ 32 ->
  Channels.get_channels_from utf8 c (S (length good + more)) results
    (Channels.mk_world (good ++ bad :: tl) calls) =
  (Raise e,
   Channels.mk_world tl (calls ++ info_calls c (S (length good)))).
Proof.
  induction good as [|a good IH];
    intros infos c results bad tl calls e Hall Hbad more Hc Hmax.
  - cbn [length app Nat.add Channels.get_channels_from].
    unfold Channels.wbind at 1, Channels.get_channel_info.
    unfold Channels.wbind at 1.
    cbn [length] in Hmax. rewrite c_uint32_small by lia.
    rewrite (wrapped_function_refuses _ bad _ _ e Hbad).
    rewrite info_calls_S. reflexivity.
  - inversion Hall as [|a' info good' infos' [Hst Hconv] Hrest]; subst.
    cbn [length] in *.
    change (S (S (length good) + more)) with (S (S (length good + more))).
    rewrite get_channels_from_S.
    unfold Channels.wbind at 1, Channels.get_channel_info.
    unfold Channels.wbind at 1.
    rewrite c_uint32_small by lia.
    change ((a :: good) ++ bad :: tl) with (a :: (good ++ bad :: tl)).
    rewrite (wrapped_function_accepts _ a _ _ Hst), Hconv.
    rewrite (IH infos' (c + 1) (results ++ [info]) bad tl _ e Hrest Hbad more)
      by lia.
    rewrite (info_calls_S c (S (length good))), <- !app_assoc. reflexivity.
Qed.

(** X14.  When libmpsse reports [n] channels and accepts the [n] requests
    that follow, [get_channels] returns [n] entries, the entry at position
    [i] converted from the node of channel [i]; it has asked once for the
    number of channels and once for each channel, in the order 0 to [n-1],
    and has taken no further answer. *)
Theorem X14_get_channels_lists_every_channel first good infos tl calls :
  Channels.ans_status first = 0 ->
  Forall2 (answers_with utf8) good infos ->
  Z.of_nat (length good) = Veneer.c_uint32 (Channels.ans_value first) ->
  Channels.get_channels utf8 (Channels.mk_world (first :: good ++ tl) calls) =
  (Ret infos,
   Channels.mk_world tl
     (calls ++ Channels.I2C_GetNumChannels :: info_calls 0 (length good))) /\
  length infos = length good.
Proof.
  intros Hfirst Hall Hn.
  split; [|symmetry; exact (Forall2_length Hall)].
  unfold Channels.get_channels, Channels.wbind at 1, Channels.get_num_channels.
  unfold Channels.wbind at 1.
  rewrite (wrapped_function_accepts _ first _ _ Hfirst).
  unfold Channels.wret at 1.
  rewrite <- Hn, Nat2Z.id.
  pose proof (c_uint32_range (Channels.ans_value first)) as Hrange.
  rewrite (get_channels_from_all good infos 0 [] tl _ Hall) by lia.
  rewrite <- app_assoc. reflexivity.
Qed.

(** X15.  When a request for a channel is refused, [get_channels] raises
    the exception of that status and stops there: it has asked for the
    channels up to the refused one and for none after it, the answers that
    follow are not taken, and the entries gathered so far are lost. *)
Theorem X15_get_channels_stops_at_a_refusal
    first good infos bad tl calls e :
  Channels.ans_status first = 0 ->
  Forall2 (answers_with utf8) good infos ->
  status_exception (Channels.ans_status bad) = Some e ->
  Z.of_nat (length good) < Veneer.c_uint32 (Channels.ans_value first) ->
  Channels.get_channels utf8
    (Channels.mk_world (first :: good ++ bad :: tl) calls) =
  (Raise e,
   Channels.mk_world tl
     (calls ++ Channels.I2C_GetNumChannels :: info_calls 0 (S (length good)))).
Proof.
  intros Hfirst Hall Hbad Hn.
  unfold Channels.get_channels, Channels.wbind at 1, Channels.get_num_channels.
  unfold Channels.wbind at 1.
  rewrite (wrapped_function_accepts _ first _ _ Hfirst).
  unfold Channels.wret at 1.
  pose proof (c_uint32_range (Channels.ans_value first)) as Hrange.
  set (n := Veneer.c_uint32 (Channels.ans_value first)) in *.
  assert (Hcount : Z.to_nat n =
                   S (length good + (Z.to_nat n - S (length good)))) by lia.
  rewrite Hcount.
  rewrite (get_channels_from_refused good infos 0 [] bad tl _ e Hall Hbad)
    by lia.
  rewrite <- app_assoc. reflexivity.
Qed.

End ChannelCalls.

(** X14 at two cables, the second one open elsewhere. *)
Lemma X14_get_channels_witness :
  Channels.get_channels utf8_ascii
    (Channels.mk_world
       (Channels.mk_answer 0 2 (cable_node 0 0)
        :: [Channels.mk_answer 0 0 (cable_node 1 0);
            Channels.mk_answer 0 0 (cable_node 2 99)] ++ [])
       []) =
  (Ret [Channels.mk_info 2 8 67330068 1 [70; 84; 49]
          [67; 50; 51; 50; 72; 77] None;
        Channels.mk_info 2 8 67330068 2 [70; 84; 49]
          [67; 50; 51; 50; 72; 77] (Some 99)],
   Channels.mk_world []
     ([] ++ Channels.I2C_GetNumChannels :: info_calls 0 2)) /\
  length [Channels.mk_info 2 8 67330068 1 [70; 84; 49]
            [67; 50; 51; 50; 72; 77] None;
          Channels.mk_info 2 8 67330068 2 [70; 84; 49]
            [67; 50; 51; 50; 72; 77] (Some 99)] = 2%nat.
Proof.
  refine (X14_get_channels_lists_every_channel utf8_ascii
            (Channels.mk_answer 0 2 (cable_node 0 0))
            [Channels.mk_answer 0 0 (cable_node 1 0);
             Channels.mk_answer 0 0 (cable_node 2 99)]
            _ [] [] eq_refl _ eq_refl).
  repeat constructor.
Defined.

(** X15 at three channels of which the second is refused. *)
Lemma X15_get_channels_witness :
  Channels.get_channels utf8_ascii
    (Channels.mk_world
       (Channels.mk_answer 0 3 (cable_node 0 0)
        :: [Channels.mk_answer 0 0 (cable_node 1 0)]
           ++ Channels.mk_answer 2 0 (cable_node 0 0)
              :: [Channels.mk_answer 0 0 (cable_node 3 0)])
       []) =
  (Raise (FtdiError FT_DEVICE_NOT_FOUND),
   Channels.mk_world [Channels.mk_answer 0 0 (cable_node 3 0)]
     ([] ++ Channels.I2C_GetNumChannels :: info_calls 0 2)).
Proof.
  refine (X15_get_channels_stops_at_a_refusal utf8_ascii
            (Channels.mk_answer 0 3 (cable_node 0 0))
            [Channels.mk_answer 0 0 (cable_node 1 0)]
            [Channels.mk_info 2 8 67330068 1 [70; 84; 49]
               [67; 50; 51; 50; 72; 77] None]
            (Channels.mk_answer 2 0 (cable_node 0 0))
            [Channels.mk_answer 0 0 (cable_node 3 0)] []
            (FtdiError FT_DEVICE_NOT_FOUND) eq_refl _ eq_refl _).
  - repeat constructor.
  - cbn. lia.
Defined.

(** ** Opening a channel *)

(** The handle that [open_channel] returns goes back to libmpsse as the
    pointer it was, the null pointer included. *)
Lemma FT_HANDLE_c_void_p_value (pointer : Z) :
  Channels.FT_HANDLE (Channels.c_void_p_value pointer) = pointer.
Proof.
  unfold Channels.c_void_p_value.
  destruct (Z.eqb_spec pointer 0) as [->|_]; reflexivity.
Qed.

(** X16.  When [I2C_OpenChannel] is refused, [FtdiI2C.__init__] raises the
    exception of that status and never calls [I2C_InitChannel]: the
    refused open is the only call it has made. *)
Theorem X16_no_init_after_a_refused_open frequency channel a tl calls e :
  status_exception (Channels.ans_status a) = Some e ->
  Channels.FtdiI2C_init frequency channel (Channels.mk_world (a :: tl) calls) =
  (Raise e,
   Channels.mk_world tl
     (calls ++ [Channels.I2C_OpenChannel (Veneer.c_uint32 channel)])).
Proof.
  intros Hbad.
  unfold Channels.FtdiI2C_init, Channels.wbind at 1, Channels.open_channel.
  unfold Channels.wbind at 1.
  rewrite (wrapped_function_refuses _ a _ _ e Hbad). reflexivity.
Qed.

Lemma X16_refused_open_witness :
  Channels.FtdiI2C_init Channels.default_frequency 0
    (Channels.mk_world [Channels.mk_answer 2 0 (cable_node 0 0)] []) =
  (Raise (FtdiError FT_DEVICE_NOT_FOUND),
   Channels.mk_world [] ([] ++ [Channels.I2C_OpenChannel (Veneer.c_uint32 0)])).
Proof.
  exact (X16_no_init_after_a_refused_open Channels.default_frequency 0
           (Channels.mk_answer 2 0 (cable_node 0 0)) [] []
           (FtdiError FT_DEVICE_NOT_FOUND) eq_refl).
Defined.

(** X17.  After an accepted [I2C_OpenChannel], [FtdiI2C.__init__] calls
    [I2C_InitChannel] once, on the very handle libmpsse stored, with the
    clock rate [int(frequency)] as a 32-bit number, latency 16 and options
    0.  It returns that handle, [None] when it is null, exactly when the
    init is accepted too. *)
Theorem X17_init_configures_the_opened_channel
    frequency channel a b tl calls :
  Channels.ans_status a = 0 ->
  snd (Channels.FtdiI2C_init frequency channel
         (Channels.mk_world (a :: b :: tl) calls)) =
    Channels.mk_world tl
      (calls ++
       [Channels.I2C_OpenChannel (Veneer.c_uint32 channel);
        Channels.I2C_InitChannel (Channels.ans_value a)
          (Channels.mk_config
             (Veneer.c_uint32 (Channels.int frequency)) 16 0)]) /\
  (Channels.ans_status b = 0 ->
   fst (Channels.FtdiI2C_init frequency channel
          (Channels.mk_world (a :: b :: tl) calls)) =
     Ret (Channels.c_void_p_value (Channels.ans_value a))) /\
  (forall e, status_exception (Channels.ans_status b) = Some e ->
   fst (Channels.FtdiI2C_init frequency channel
          (Channels.mk_world (a :: b :: tl) calls)) = Raise e).
Proof.
  intros Hopen.
  assert (Hrun :
    Channels.FtdiI2C_init frequency channel
      (Channels.mk_world (a :: b :: tl) calls) =
    (match status_exception (Channels.ans_status b) with
     | None => Ret (Channels.c_void_p_value (Channels.ans_value a))
     | Some e => Raise e
     end,
     Channels.mk_world tl
       (calls ++
        [Channels.I2C_OpenChannel (Veneer.c_uint32 channel);
         Channels.I2C_InitChannel (Channels.ans_value a)
           (Channels.mk_config
              (Veneer.c_uint32 (Channels.int frequency)) 16 0)]))).
  { unfold Channels.FtdiI2C_init, Channels.wbind at 1, Channels.open_channel.
    unfold Channels.wbind at 1.
    rewrite (wrapped_function_accepts _ a _ _ Hopen).
    unfold Channels.wret at 1.
    unfold Channels.wbind at 1, Channels.init_channel.
    unfold Channels.wbind at 1.
    rewrite FT_HANDLE_c_void_p_value.
    change (16 mod 2 ^ 8) with 16. change (Veneer.c_uint32 0) with 0.
    destruct (status_exception (Channels.ans_status b)) as [e|] eqn:Hb.
    - rewrite (wrapped_function_refuses _ b _ _ e Hb).
      rewrite <- app_assoc. reflexivity.
    - apply status_exception_none in Hb.
      rewrite (wrapped_function_accepts _ b _ _ Hb).
      rewrite <- app_assoc. reflexivity. }
  rewrite Hrun. cbn [fst snd].
  split; [reflexivity|]. split.
  - intros H0. apply (proj2 (status_exception_none _)) in H0.
    rewrite H0. reflexivity.
  - intros e He. rewrite He. reflexivity.
Qed.

(** X17 at the default frequency, [100e3]: the clock rate is 100000. *)
Lemma X17_init_witness :
  snd (Channels.FtdiI2C_init Channels.default_frequency 0
         (Channels.mk_world
            [Channels.mk_answer 0 99 (cable_node 0 0);
             Channels.mk_answer 0 0 (cable_node 0 0)] [])) =
    Channels.mk_world []
      ([] ++
       [Channels.I2C_OpenChannel (Veneer.c_uint32 0);
        Channels.I2C_InitChannel 99 (Channels.mk_config 100000 16 0)]) /\
  (0 = 0 ->
   fst (Channels.FtdiI2C_init Channels.default_frequency 0
          (Channels.mk_world
             [Channels.mk_answer 0 99 (cable_node 0 0);
              Channels.mk_answer 0 0 (cable_node 0 0)] [])) =
     Ret (Some 99)) /\
  (forall e, status_exception 0 = Some e ->
   fst (Channels.FtdiI2C_init Channels.default_frequency 0
          (Channels.mk_world
             [Channels.mk_answer 0 99 (cable_node 0 0);
              Channels.mk_answer 0 0 (cable_node 0 0)] [])) = Raise e).
Proof.
  exact (X17_init_configures_the_opened_channel Channels.default_frequency 0
           (Channels.mk_answer 0 99 (cable_node 0 0))
           (Channels.mk_answer 0 0 (cable_node 0 0)) [] [] eq_refl).
Defined.

(** ** Converting a node *)

Lemma char_array_value_bounds (size : nat) (field : list Z) :
  (length (Channels.char_array_value size field) <= size)%nat /\
  ~ In 0 (Channels.char_array_value size field) /\
  (firstn size field = Channels.char_array_value size field \/
   exists tl,
     firstn size field = Channels.char_array_value size field ++ 0 :: tl).
Proof.
  unfold Channels.char_array_value.
  split; [|split; [apply c_char_p_value_no_nul | apply c_char_p_value_prefix]].
  destruct (c_char_p_value_length (firstn size field)) as [Hle _].
  pose proof (length_firstn size field) as Hfirst. lia.
Qed.

(** X18.  When [to_dataclass] returns, nothing was asked of libmpsse; the
    serial number and the description are the decoded text that precedes
    the first NUL of their arrays, at most 16 and 64 bytes and without
    NUL; the four numbers are copied, and a null [ftHandle] reads as
    [None]. *)
Theorem X18_to_dataclass_text utf8 self w info w' :
  Channels.to_dataclass utf8 self w = (Ret info, w') ->
  w' = w /\
  (exists raw_serial raw_description,
     utf8 raw_serial = Some (Channels.serial info) /\
     utf8 raw_description = Some (Channels.description info) /\
     (length raw_serial <= 16)%nat /\ ~ In 0 raw_serial /\
     (firstn 16 (Channels.SerialNumber self) = raw_serial \/
      exists tl, firstn 16 (Channels.SerialNumber self) = raw_serial ++ 0 :: tl) /\
     (length raw_description <= 64)%nat /\ ~ In 0 raw_description /\
     (firstn 64 (Channels.Description self) = raw_description \/
      exists tl,
        firstn 64 (Channels.Description self) = raw_description ++ 0 :: tl)) /\
  Channels.flags info = Channels.Flags self /\
  Channels.type info = Channels.Type_ self /\
  Channels.id info = Channels.ID self /\
  Channels.loc_id info = Channels.LocId self /\
  (Channels.handle info = None <-> Channels.ftHandle self = 0).
Proof.
  unfold Channels.to_dataclass, Channels.wbind, Channels.decode,
    Channels.wret, Channels.wraise.
  destruct (utf8 (Channels.char_array_value 16 (Channels.SerialNumber self)))
    as [text1|] eqn:E1; [|discriminate].
  destruct (utf8 (Channels.char_array_value 64 (Channels.Description self)))
    as [text2|] eqn:E2; [|discriminate].
  intros H; injection H as <- <-. cbn.
  destruct (char_array_value_bounds 16 (Channels.SerialNumber self))
    as (Hs1 & Hs2 & Hs3).
  destruct (char_array_value_bounds 64 (Channels.Description self))
    as (Hd1 & Hd2 & Hd3).
  split; [reflexivity|]. split.
  - exists (Channels.char_array_value 16 (Channels.SerialNumber self)),
           (Channels.char_array_value 64 (Channels.Description self)).
    repeat split; assumption.
  - repeat split; try reflexivity.
    + unfold Channels.c_void_p_value.
      destruct (Z.eqb_spec (Channels.ftHandle self) 0); [intros _; assumption|].
      discriminate.
    + intros H0. unfold Channels.c_void_p_value. rewrite H0. reflexivity.
Qed.

(** X18 at the node of a cable that is not open. *)
Lemma X18_to_dataclass_witness :
  Channels.mk_world [] [] = Channels.mk_world [] [] /\
  (exists raw_serial raw_description,
     utf8_ascii raw_serial = Some [70; 84; 49] /\
     utf8_ascii raw_description = Some [67; 50; 51; 50; 72; 77] /\
     (length raw_serial <= 16)%nat /\ ~ In 0 raw_serial /\
     (firstn 16 (Channels.SerialNumber (cable_node 1 0)) = raw_serial \/
      exists tl,
        firstn 16 (Channels.SerialNumber (cable_node 1 0)) =
        raw_serial ++ 0 :: tl) /\
     (length raw_description <= 64)%nat /\ ~ In 0 raw_description /\
     (firstn 64 (Channels.Description (cable_node 1 0)) = raw_description \/
      exists tl,
        firstn 64 (Channels.Description (cable_node 1 0)) =
        raw_description ++ 0 :: tl)) /\
  2 = 2 /\ 8 = 8 /\ 67330068 = 67330068 /\ 1 = 1 /\
  (@None Z = None <-> 0 = 0).
Proof.
  exact (X18_to_dataclass_text utf8_ascii (cable_node 1 0)
           (Channels.mk_world [] [])
           (Channels.mk_info 2 8 67330068 1 [70; 84; 49]
              [67; 50; 51; 50; 72; 77] None)
           (Channels.mk_world [] []) eq_refl).
Defined.

(** ** Leaving [main] *)

(** X19.  When the loop has ended, [main] closes the serial port and asks
    libmpsse to close the channel.  If that is accepted, [main] ends the
    way the loop did; if it is refused, [main] raises the exception of the
    close, and the way the loop ended, its own exception included, is
    lost. *)
Theorem X19_close_decides_how_main_ends
    hi2c fuel s r1 s1 reply replies :
  main_loop hi2c fuel s = (r1, s1) ->
  ended r1 ->
  dll s1 = reply :: replies ->
  snd (main hi2c fuel s) =
    mk_state (uart_in s1) (uart_timeout s1) replies
      (trace s1 ++ [uart_close; I2C_CloseChannel hi2c]) (next_char s1) /\
  (status reply = 0 -> fst (main hi2c fuel s) = r1) /\
  (forall e, status_exception (status reply) = Some e ->
   fst (main hi2c fuel s) = Raise e).
Proof.
  intros Hloop Hended Hdll.
  assert (Hrun :
    main hi2c fuel s =
    (match status_exception (status reply) with
     | None => r1
     | Some e => Raise e
     end,
     mk_state (uart_in s1) (uart_timeout s1) replies
       (trace s1 ++ [uart_close; I2C_CloseChannel hi2c]) (next_char s1))).
  { unfold main, with_exit. rewrite Hloop.
    destruct r1 as [[]|e1| |]; try contradiction;
      unfold FtdiI2C.__exit__, Veneer.close_channel,
        Veneer.wrapped_function, dll_call, emit, ret, raise, bind;
      cbn [dll uart_in uart_timeout trace next_char];
      rewrite Hdll, check_ftdi_status_exception;
      destruct (status_exception (status reply));
      rewrite <- app_assoc; reflexivity. }
  rewrite Hrun. cbn [fst snd].
  split; [reflexivity|]. split.
  - intros H0. apply (proj2 (status_exception_none _)) in H0.
    rewrite H0. reflexivity.
  - intros e He. rewrite He. reflexivity.
Qed.

(** X19 at a loop ended by a write that the device does not acknowledge,
    followed by a close that libmpsse refuses as well. *)
Lemma X19_close_witness :
  snd (main 7 5 (initial [Rx [83]; Rx [84; 1]; Rx [170; 83]]
                   [mk_reply 2 0 []; mk_reply 1 0 []])) =
    mk_state [] Seconds_0_7 []
      ([uart_read_call Forever 1; uart_read_call Seconds_0_7 2;
        uart_read_call Seconds_0_7 2;
        I2C_DeviceWrite 7 42 1 [170] (Veneer.transfer_options true true 1)]
       ++ [uart_close; I2C_CloseChannel 7]) (Some 83) /\
  (1 = 0 ->
   fst (main 7 5 (initial [Rx [83]; Rx [84; 1]; Rx [170; 83]]
                    [mk_reply 2 0 []; mk_reply 1 0 []])) =
     Raise (FtdiError FT_DEVICE_NOT_FOUND)) /\
  (forall e, status_exception 1 = Some e ->
   fst (main 7 5 (initial [Rx [83]; Rx [84; 1]; Rx [170; 83]]
                    [mk_reply 2 0 []; mk_reply 1 0 []])) = Raise e).
Proof.
  exact (X19_close_decides_how_main_ends 7 5
           (initial [Rx [83]; Rx [84; 1]; Rx [170; 83]]
              [mk_reply 2 0 []; mk_reply 1 0 []])
           (Raise (FtdiError FT_DEVICE_NOT_FOUND))
           (mk_state [] Seconds_0_7 [mk_reply 1 0 []]
              [uart_read_call Forever 1; uart_read_call Seconds_0_7 2;
               uart_read_call Seconds_0_7 2;
               I2C_DeviceWrite 7 42 1 [170]
                 (Veneer.transfer_options true true 1)]
              (Some 83))
           (mk_reply 1 0 []) [] eq_refl I eq_refl).
Defined.
